(** * wdio-electron-service: binary location and chromedriver provisioning

    A shallow embedding of [src/utils.ts].

    - JavaScript strings are embedded as [string].  Every pattern the code
      searches for (the separator [.], the suffix [" Helper"]) is plain
      ASCII, so splitting and searching on bytes agrees with splitting and
      searching on UTF-16 code units.
    - A function that may [throw] returns a [completion]: either [Return v]
      or [Throw e].
    - [undefined] is [None]; a template literal prints it as ["undefined"].
    - The plain objects used as dictionaries ([electronChromiumVersionMap],
      [fullVersions]) are finite maps [gmap string string] of their own
      properties; reading and writing them goes through [Object.prototype]
      as [plainGet] and [plainSet] describe.
    - Capability objects, whose shape the code inspects at run time, are
      values of [JsValue]; the object that [getChromeOptions] builds is a
      finite map from property names to such values. *)

From Stdlib Require Import String Ascii List ZArith Lia Bool.
From stdpp Require Import base option strings pretty gmap.
From Equations Require Import Equations.
Import ListNotations.
Local Open Scope string_scope.

(** ** Completions: normal return or thrown value *)

Inductive completion (E A : Type) : Type :=
| Return (a : A)
| Throw (e : E).
Arguments Return {E A} a.
Arguments Throw {E A} e.

(** ** The fragment of [String.prototype] the code uses *)

Module Js.

(** [s.endsWith(suffix)]: the last [length suffix] characters of [s] are
    [suffix]; false when [suffix] is longer than [s]. *)
Definition endsWith (s suffix : string) : bool :=
  let n := String.length s in
  let k := String.length suffix in
  (k <=? n)%nat && String.eqb (substring (n - k) k s) suffix.

(** [s.replace(pat, rep)] with a string pattern: only the first occurrence
    of [pat] (searching from the left) is replaced.  [rep] is taken
    literally; the code only passes the empty string. *)
Definition replace (s pat rep : string) : string :=
  match index 0 pat s with
  | None => s
  | Some pos =>
      substring 0 pos s ++ rep ++
      substring (pos + String.length pat)
                (String.length s - (pos + String.length pat)) s
  end.

(** [s.split(sep)] for a one-character separator.  The result always has
    at least one element; [''.split('.')] is [['']]. *)
Fixpoint split (sep : ascii) (s : string) : list string :=
  match s with
  | EmptyString => [EmptyString]
  | String c rest =>
      if Ascii.eqb c sep then EmptyString :: split sep rest
      else match split sep rest with
           | [] => [String c EmptyString]
           | seg :: segs => String c seg :: segs
           end
  end.

(** [`${v}`] for a value that may be [undefined]. *)
Definition template (v : option string) : string :=
  match v with
  | Some s => s
  | None => "undefined"
  end.

(** [a || b] on strings that may be [undefined]: the empty string is
    falsy, like [undefined]. *)
Definition or_else (a : option string) (b : string) : string :=
  match a with
  | Some s => if String.eqb s "" then b else s
  | None => b
  end.

(** [xs.includes(x)] on an array of strings. *)
Definition includes (xs : list string) (x : string) : bool :=
  existsb (String.eqb x) xs.

(** [Object.values(o)] and [o[k]] for an object literal written as a list
    of its properties in source order. *)
Definition Object_values (o : list (string * string)) : list string :=
  map snd o.

Fixpoint get (o : list (string * string)) (k : string) : option string :=
  match o with
  | [] => None
  | (k', v) :: o' => if String.eqb k k' then Some v else get o' k
  end.

End Js.

(** ** Binary locator *)

(** [new Error(message)]. *)
Record Error : Type := mkError { message : string }.

(** The two fields of the global [process] object that [getBinaryPath]
    reads. *)
Record Process : Type := mkProcess { platform : string; arch : string }.

Definition getMacExecutableName (appName : string) : string :=
  if Js.endsWith appName " Helper" then Js.replace appName " Helper" ""
  else appName.

Definition SupportedPlatform : list (string * string) :=
  [("darwin", "darwin"); ("linux", "linux"); ("win32", "win32")].

Definition getBinaryPath (process : Process) (distPath appName : string)
  : completion Error string :=
  if negb (Js.includes (Js.Object_values SupportedPlatform) (platform process))
  then Throw (mkError ("Unsupported platform: " ++ platform process))
  else
    let pathMap :=
      [("darwin",
        (if String.eqb (arch process) "arm64" then "mac-arm64" else "mac")
          ++ "/" ++ appName ++ ".app/Contents/MacOS/"
          ++ getMacExecutableName appName);
       ("linux", "linux-unpacked/" ++ appName);
       ("win32", "win-unpacked/" ++ appName ++ ".exe")] in
    let electronPath := Js.get pathMap (platform process) in
    Return (distPath ++ "/" ++ Js.template electronPath).

(** Following the spec's words, not the code: [appName] with the trailing
    [suffix] removed. *)
Definition spec_without_suffix (appName suffix : string) : string :=
  substring 0 (String.length appName - String.length suffix) appName.

(** ** Capabilities and launch options *)

(** JavaScript values, as far as capability objects hold them.  An object
    is the list of its own enumerable properties in enumeration order (the
    first entry of a key is the one that counts); numbers are integers. *)
#[warnings="-register-all"]
Inductive JsValue : Type :=
| JUndefined
| JNull
| JBool (b : bool)
| JNum (n : Z)
| JStr (s : string)
| JArr (items : list JsValue)
| JObj (props : list (string * JsValue)).

(** What the functions below throw: the [Error] of [getBinaryPath], or a
    [TypeError]. *)
Inductive Thrown : Type :=
| ThrownError (e : Error)
| TypeError.

Definition and_then {E A B} (c : completion E A) (k : A -> completion E B)
  : completion E B :=
  match c with
  | Return a => k a
  | Throw e => Throw e
  end.

(** [xs.map(f)] and [xs.filter(f)] with a callback that may throw. *)
Fixpoint Array_map {E A B} (f : A -> completion E B) (xs : list A)
  : completion E (list B) :=
  match xs with
  | [] => Return []
  | x :: xs' =>
      and_then (f x) (fun y =>
      and_then (Array_map f xs') (fun ys => Return (y :: ys)))
  end.

Fixpoint Array_filter {E A} (f : A -> completion E bool) (xs : list A)
  : completion E (list A) :=
  match xs with
  | [] => Return []
  | x :: xs' =>
      and_then (f x) (fun keep =>
      and_then (Array_filter f xs') (fun ys =>
      Return (if keep then x :: ys else ys)))
  end.

(** Truthiness. *)
Definition truthy (v : JsValue) : bool :=
  match v with
  | JUndefined | JNull => false
  | JBool b => b
  | JNum n => negb (n =? 0)%Z
  | JStr s => negb (String.eqb s "")
  | JArr _ | JObj _ => true
  end.

(** [a || b]. *)
Definition js_or (a b : JsValue) : JsValue := if truthy a then a else b.

Fixpoint lookupOwn (props : list (string * JsValue)) (name : string)
  : option JsValue :=
  match props with
  | [] => None
  | (k, v) :: rest => if String.eqb k name then Some v else lookupOwn rest name
  end.

(** [v.name] and [v[name]] for the names the code reads ([browserName],
    [alwaysMatch], [capabilities], [goog:chromeOptions],
    [wdio:chromedriverOptions], [args]): none of them is a property of a
    string, a number, a boolean or an array, nor of [Object.prototype].
    Reading a property of [undefined] or [null] is a [TypeError]. *)
Definition getProp (v : JsValue) (name : string) : completion Thrown JsValue :=
  match v with
  | JUndefined | JNull => Throw TypeError
  | JObj props => Return (default JUndefined (lookupOwn props name))
  | _ => Return JUndefined
  end.

(** The characters of a string as one-character strings (exact for ASCII
    text). *)
Fixpoint chars (s : string) : list JsValue :=
  match s with
  | EmptyString => []
  | String c rest => JStr (String c EmptyString) :: chars rest
  end.

(** The own enumerable properties that [{...v}] copies and that
    [Object.values(v)] lists: those of an object, the indexed elements of
    an array or of a string, none for the other values. *)
Definition ownProps (v : JsValue) : list (string * JsValue) :=
  match v with
  | JObj props => props
  | JArr items => imap (fun i x => (pretty i, x)) items
  | JStr s => imap (fun i x => (pretty i, x)) (chars s)
  | _ => []
  end.

Definition objectValues (v : JsValue) : list JsValue := map snd (ownProps v).

(** [[...v]]: arrays and strings are iterable, the other values are not. *)
Definition iterate (v : JsValue) : completion Thrown (list JsValue) :=
  match v with
  | JArr items => Return items
  | JStr s => Return (chars s)
  | _ => Throw TypeError
  end.

(** [{...props}] on top of the properties [m] written before it. *)
Definition spreadInto (props : list (string * JsValue))
           (m : gmap string JsValue) : gmap string JsValue :=
  foldr (fun kv m => <[kv.1 := kv.2]> m) m props.

(** [s.toLowerCase()], on ASCII letters.  No other character has a lower
    case among the letters of ["electron"], the only string the result is
    compared with. *)
Definition lower (c : ascii) : ascii :=
  let n := nat_of_ascii c in
  if ((65 <=? n) && (n <=? 90))%nat then ascii_of_nat (n + 32) else c.

Fixpoint toLowerCase (s : string) : string :=
  match s with
  | EmptyString => EmptyString
  | String c rest => String (lower c) (toLowerCase rest)
  end.

(** [ElectronServiceOptions] of [./types]: the four optional fields that
    [utils.ts] reads. *)
Record ElectronServiceOptions : Type := mkOptions {
  appPath : option string;
  appName : option string;
  binaryPath : option string;
  appArgs : option (list string)
}.

(** The call [getBinaryPath(options.appPath as string, options.appName as
    string)]: the casts leave an [undefined] as it is.  The platform check
    comes first; then [pathMap] is built, whose [darwin] entry calls
    [getMacExecutableName(appName)] on every platform, a [TypeError] for
    an [undefined] name; an [undefined] path is printed by the template. *)
Definition getBinaryPath_call (process : Process)
           (distPath appName : option string) : completion Thrown string :=
  if negb (Js.includes (Js.Object_values SupportedPlatform) (platform process))
  then Throw (ThrownError (mkError ("Unsupported platform: " ++ platform process)))
  else
    match appName with
    | None => Throw TypeError
    | Some name =>
        match getBinaryPath process (Js.template distPath) name with
        | Return electronPath => Return electronPath
        | Throw e => Throw (ThrownError e)
        end
    end.

(** [options.binaryPath || getBinaryPath(options.appPath as string,
    options.appName as string)]: the path is computed only when no
    non-empty [binaryPath] is given. *)
Definition binaryOption (process : Process) (options : ElectronServiceOptions)
  : completion Thrown string :=
  match binaryPath options with
  | Some path =>
      if String.eqb path ""
      then getBinaryPath_call process (appPath options) (appName options)
      else Return path
  | None => getBinaryPath_call process (appPath options) (appName options)
  end.

Definition getChromeOptions (process : Process)
           (options : ElectronServiceOptions) (cap : JsValue)
  : completion Thrown (gmap string JsValue) :=
  and_then (getProp cap "goog:chromeOptions") (fun chromeOptions =>
  let existingOptions := js_or chromeOptions (JObj []) in
  and_then (binaryOption process options) (fun binary =>
  and_then (getProp existingOptions "args") (fun existingArgs =>
  and_then (iterate (js_or existingArgs (JArr []))) (fun args =>
  let appArgs :=
    match appArgs options with
    | Some l => map JStr l
    | None => []
    end in
  Return (<["args" := JArr (args ++ appArgs)%list]>
            (spreadInto (ownProps existingOptions)
               (<["windowTypes" := JArr [JStr "app"; JStr "webview"]]>
                  (<["binary" := JStr binary]> ∅)))))))).

Definition getChromedriverOptions (cap : JsValue) : completion Thrown JsValue :=
  and_then (getProp cap "wdio:chromedriverOptions") (fun chromedriverOptions =>
  let existingOptions := js_or chromedriverOptions (JObj []) in
  Return existingOptions).

(** [(cap)?.browserName?.toLowerCase() === 'electron']: a [browserName]
    that is neither a string nor nullish has no [toLowerCase] to call. *)
Definition isElectron (cap : JsValue) : completion Thrown bool :=
  match cap with
  | JUndefined | JNull => Return false
  | _ =>
      and_then (getProp cap "browserName") (fun browserName =>
      match browserName with
      | JUndefined | JNull => Return false
      | JStr s => Return (String.eqb (toLowerCase s) "electron")
      | _ => Throw TypeError
      end)
  end.

(** [typeof v === 'string']. *)
Definition isString (v : JsValue) : bool :=
  match v with
  | JStr _ => true
  | _ => false
  end.

(** [parseVersion]; [findVersions] is the [find-versions] package. *)
Definition parseVersion (findVersions : string -> list string)
           (version : option string) : option string :=
  match version with
  | None => None
  | Some v => if String.eqb v "" then None else head (findVersions v)
  end.

(** Whether [cap.browserName] is a string that reads [electron] in lower
    case. *)
Definition hasElectronName (cap : JsValue) : bool :=
  match getProp cap "browserName" with
  | Return (JStr s) => String.eqb (toLowerCase s) "electron"
  | _ => false
  end.

(** The capability chosen for one instance of a multiremote object:
    [options.capabilities.alwaysMatch || options.capabilities]. *)
Definition instanceCapability (options : JsValue) : completion Thrown JsValue :=
  and_then (getProp options "capabilities") (fun capabilities =>
  and_then (getProp capabilities "alwaysMatch") (fun alwaysMatch =>
  Return (js_or alwaysMatch capabilities))).

Definition getElectronCapabilities (caps : JsValue)
  : completion Thrown (list JsValue) :=
  let standardCaps := caps in
  and_then (getProp standardCaps "browserName") (fun browserName =>
  and_then (if isString browserName then isElectron standardCaps
            else Return false) (fun standard =>
  if standard then Return [caps]
  else
    and_then (getProp caps "alwaysMatch") (fun w3cCaps =>
    and_then (if truthy w3cCaps
              then and_then (getProp w3cCaps "browserName") (fun browserName =>
                   if isString browserName then isElectron w3cCaps
                   else Return false)
              else Return false) (fun w3c =>
    if w3c then Return [w3cCaps]
    else
      and_then (Array_map instanceCapability (objectValues caps))
               (fun candidates =>
      Array_filter isElectron candidates))))).

(** One instance of a multiremote object with plain capabilities that
    name a browser. *)
Definition plainInstance (options capabilities : JsValue) : Prop :=
  exists o c s,
    options = JObj o /\ capabilities = JObj c /\
    lookupOwn o "capabilities" = Some capabilities /\
    lookupOwn c "alwaysMatch" = None /\
    lookupOwn c "browserName" = Some (JStr s).

(** ** Driver provisioner *)

(** [type ElectronRelease = { chrome: string; version: string }]. *)
Record ElectronRelease : Type := mkRelease { chrome : string; version : string }.

(** The configuration object handed to [downloadArtifact]. *)
Record DownloadConfig : Type := mkConf {
  conf_version : string;
  conf_artifactName : string;
  conf_force : bool;
  conf_cacheRoot : option string;
  conf_platform : option string;
  conf_arch : option string
}.

(** The four variables of [process.env] that the provisioner reads. *)
Record ProcessEnv : Type := mkEnv {
  force_no_cache : option string;
  electron_config_cache : option string;
  npm_config_platform : option string;
  npm_config_arch : option string
}.

Inductive Level : Type := debug | warn | error.

(** [`${parts[0]}.${parts[1]}.0`] where [parts = version.split('.')]: the
    fallback version computed in the [catch] block of
    [attemptAssetsDownload]. *)
Definition baseVersion (version : string) : string :=
  let parts := Js.split "." version in
  Js.template (parts !! 0%nat) ++ "." ++ Js.template (parts !! 1%nat) ++ ".0".

(** Number of fallbacks still possible from [version]; the recursion of
    [attemptAssetsDownload] decreases it. *)
Definition fallbacks (version : string) : nat :=
  if decide (baseVersion version = version) then 0 else 1.

(** The key under which [o[k]] looks when [k] may be [undefined]. *)
Definition propertyKey (k : option string) : string := Js.template k.

(** The names of the properties that a plain object inherits from
    [Object.prototype]. *)
Definition objectPrototypeKeys : list string :=
  ["constructor"; "__defineGetter__"; "__defineSetter__"; "hasOwnProperty";
   "__lookupGetter__"; "__lookupSetter__"; "isPrototypeOf";
   "propertyIsEnumerable"; "toString"; "valueOf"; "__proto__";
   "toLocaleString"].

(** What [o[k]] gives on a plain object with string values: an own value,
    the member of [Object.prototype] named [k], or [undefined]. *)
Inductive PropertyValue : Type :=
| Own (value : string)
| Inherited (name : string)
| Undefined.

(** [o[k]], where [o] holds the own properties of a plain object: own
    properties first, then [Object.prototype]. *)
Definition plainGet (o : gmap string string) (k : string) : PropertyValue :=
  match o !! k with
  | Some value => Own value
  | None => if bool_decide (k ∈ objectPrototypeKeys) then Inherited k
            else Undefined
  end.

(** [o[k] = v] for a string [v]: an own property is written, except under
    [__proto__], where the setter of [Object.prototype] ignores a value
    that is not an object. *)
Definition plainSet (o : gmap string string) (k v : string)
  : gmap string string :=
  if bool_decide (k = "__proto__") then o else <[k := v]> o.

(** [0o755]. *)
Definition mode_0o755 : Z := 493.

(** ** A concrete outside world

    Collaborators to run the definitions on: the world counts the calls
    made so far, thrown values are messages, a response body is text. *)

Module Scenario.

Definition env : ProcessEnv := mkEnv None None None None.

Definition linux : Process := mkProcess "linux" "x64".

Definition windows : Process := mkProcess "win32" "x64".

Definition path_join (segments : list string) : string :=
  String.concat "/" segments.

(** The artifact host has the versions listed in [available]. *)
Definition downloadArtifact (available : list string) (conf : DownloadConfig)
           (w : nat) : completion string string * nat :=
  if Js.includes available (conf_version conf)
  then (Return ("/cache/chromedriver-v" ++ conf_version conf ++ ".zip"), S w)
  else (Throw ("HTTP 404: v" ++ conf_version conf), S w).

Definition extractZip (zipPath dir : string) (w : nat)
  : completion string unit * nat := (Return tt, S w).

Definition fs_chmod (file : string) (mode : Z) (w : nat)
  : completion string unit * nat := (Return tt, S w).

Definition fetch (online : bool) (url : string) (w : nat)
  : completion string string * nat :=
  if online then (Return "<body>", S w) else (Throw "ENOTFOUND", S w).

Definition json (feed : option (list ElectronRelease)) (body : string)
           (w : nat) : completion string (list ElectronRelease) * nat :=
  match feed with
  | Some releases => (Return releases, w)
  | None => (Throw "Unexpected token < in JSON", w)
  end.

(** A comparator for dotted decimal versions that throws on anything
    else. *)
Definition digit (c : ascii) : option N :=
  let n := N_of_ascii c in
  if ((48 <=? n) && (n <=? 57))%N then Some (n - 48)%N else None.

Fixpoint number (s : string) (acc : N) : option N :=
  match s with
  | EmptyString => Some acc
  | String c rest =>
      match digit c with
      | Some d => number rest (10 * acc + d)%N
      | None => None
      end
  end.

Fixpoint numbers (segments : list string) : option (list N) :=
  match segments with
  | [] => Some []
  | EmptyString :: _ => None
  | seg :: rest =>
      match number seg 0, numbers rest with
      | Some n, Some ns => Some (n :: ns)
      | _, _ => None
      end
  end.

Fixpoint compareNumbers (a b : list N) : Z :=
  match a, b with
  | [], _ => if forallb (N.eqb 0) b then 0 else (-1)
  | _, [] => if forallb (N.eqb 0) a then 0 else 1
  | x :: a', y :: b' =>
      match (x ?= y)%N with
      | Lt => (-1)
      | Gt => 1
      | Eq => compareNumbers a' b'
      end
  end%Z.

Definition compareVersions (a b : string) : completion string Z :=
  match numbers (Js.split "." a), numbers (Js.split "." b) with
  | Some na, Some nb => Return (compareNumbers na nb)
  | _, _ => Throw "Invalid argument not valid semver"
  end.

Definition fullVersions : gmap string string :=
  <["26.0.0" := "116.0.5845.62"]> (<["10.1.0" := "85.0.4183.121"]> ∅).

Definition feed : list ElectronRelease :=
  [mkRelease "116.0.5845.0" "26.0.0"].

(** A feed that lists a version twice, and one with a version that is
    not a dotted number. *)
Definition feedTwice : list ElectronRelease :=
  [mkRelease "116.0.5845.0" "26.0.0";
   mkRelease "114.0.5735.45" "25.0.0";
   mkRelease "116.0.5845.62" "26.0.0"].

Definition feedNightly : list ElectronRelease :=
  [mkRelease "116.0.5845.0" "26.0.0";
   mkRelease "118.0.5949.0" "nightly"].

Definition invalid (v : string) : Prop := numbers (Js.split "." v) = None.

(** The capability of [example/e2e-cjs/wdio.conf.js] and service options
    for it. *)
Definition capability : JsValue :=
  JObj [("browserName", JStr "electron");
        ("browserVersion", JStr "26.0.0");
        ("goog:chromeOptions",
         JObj [("args", JArr [JStr "foo"; JStr "bar=baz"])])].

Definition options : ElectronServiceOptions :=
  mkOptions (Some "/app/dist") (Some "My App") None (Some ["--headless"]).

Definition multiremote : JsValue :=
  JObj [("main", JObj [("capabilities",
                        JObj [("browserName", JStr "Electron")])]);
        ("web", JObj [("capabilities",
                       JObj [("browserName", JStr "chrome")])]);
        ("aux", JObj [("capabilities",
                       JObj [("browserName", JStr "electron");
                             ("browserVersion", JStr "26.0.0")])])].

End Scenario.

(** *** The fallback version is its own fallback

    These facts about [split] are what makes the recursion of
    [attemptAssetsDownload] stop. *)

Fixpoint free_of (sep : ascii) (s : string) : bool :=
  match s with
  | EmptyString => true
  | String c rest => negb (Ascii.eqb c sep) && free_of sep rest
  end.

Lemma split_not_nil sep s : Js.split sep s <> [].
Proof.
  destruct s as [|c rest]; simpl; [discriminate|].
  destruct (Ascii.eqb c sep); [discriminate|].
  destruct (Js.split sep rest); discriminate.
Qed.

Lemma split_segments_free sep s :
  Forall (fun seg => free_of sep seg = true) (Js.split sep s).
Proof.
  induction s as [|c rest IH]; simpl.
  - repeat constructor.
  - destruct (Ascii.eqb c sep) eqn:Hc.
    + constructor; [reflexivity | exact IH].
    + destruct (Js.split sep rest) as [|seg segs].
      * repeat constructor. simpl. now rewrite Hc.
      * inversion IH as [|? ? Hseg Hsegs]; subst.
        constructor; [simpl; now rewrite Hc, Hseg | exact Hsegs].
Qed.

Lemma split_free sep s : free_of sep s = true -> Js.split sep s = [s].
Proof.
  induction s as [|c rest IH]; simpl; [reflexivity|].
  intros [Hc Hrest]%andb_prop.
  apply negb_true_iff in Hc. rewrite Hc, (IH Hrest). reflexivity.
Qed.

Lemma split_app_sep sep a b :
  free_of sep a = true ->
  Js.split sep (a ++ String sep b) = a :: Js.split sep b.
Proof.
  induction a as [|c rest IH]; simpl.
  - intros _. now rewrite Ascii.eqb_refl.
  - intros [Hc Hrest]%andb_prop.
    apply negb_true_iff in Hc. rewrite Hc, (IH Hrest). reflexivity.
Qed.

Lemma template_lookup_free sep (parts : list string) (i : nat) :
  free_of sep "undefined" = true ->
  Forall (fun seg => free_of sep seg = true) parts ->
  free_of sep (Js.template (parts !! i)) = true.
Proof.
  intros Hu Hall. destruct (parts !! i) as [seg|] eqn:Hi; simpl; [|exact Hu].
  rewrite Forall_forall in Hall. apply Hall.
  eapply list_elem_of_lookup_2; eassumption.
Qed.

Lemma baseVersion_fixed version :
  baseVersion (baseVersion version) = baseVersion version.
Proof.
  unfold baseVersion at 2.
  set (parts := Js.split "." version).
  pose proof (split_segments_free "." version) as Hall. fold parts in Hall.
  pose proof (template_lookup_free "." parts 0 eq_refl Hall) as H0.
  pose proof (template_lookup_free "." parts 1 eq_refl Hall) as H1.
  set (p0 := Js.template (parts !! 0%nat)) in *.
  set (p1 := Js.template (parts !! 1%nat)) in *.
  unfold baseVersion.
  change (p0 ++ "." ++ p1 ++ ".0") with (p0 ++ String "." (p1 ++ String "." "0")).
  rewrite (split_app_sep "." p0 _ H0), (split_app_sep "." p1 _ H1).
  reflexivity.
Qed.

Lemma fallbacks_baseVersion version :
  baseVersion version <> version ->
  (fallbacks (baseVersion version) < fallbacks version)%nat.
Proof.
  intros Hne. unfold fallbacks.
  rewrite (decide_True _ _ (baseVersion_fixed version)).
  rewrite (decide_False _ _ Hne). lia.
Qed.

Section Provisioner.

(** Values thrown by the collaborators, the state of the outside world
    (network, file system) and the body of an HTTP response. *)
Variables (Exn World Response : Type).

(** Ambient process state. *)
Variable env : ProcessEnv.
Variable process : Process.

(** [path.resolve(esmDirname, '..')] and [path.join]. *)
Variable __dirname : string.
Variable path_join : list string -> string.

(** External collaborators.  Each one reads and changes the world and
    either returns or throws. *)
Variable fetch : string -> World -> completion Exn Response * World.
Variable json : Response -> World -> completion Exn (list ElectronRelease) * World.
Variable downloadArtifact : DownloadConfig -> World -> completion Exn string * World.
Variable extractZip : string -> string -> World -> completion Exn unit * World.
Variable fs_chmod : string -> Z -> World -> completion Exn unit * World.

(** [compareVersions] of the [compare-versions] package; it throws on a
    string that is not a version. *)
Variable compareVersions : string -> string -> completion Exn Z.

(** [fullVersions] of the [electron-to-chromium] package. *)
Variable fullVersions : gmap string string.

(** Arguments of a log call. *)
Inductive LogArg : Type :=
| LStr (s : string)
| LConf (c : DownloadConfig)
| LExn (e : Exn).

(** What one run does to the outside, in order. *)
Inductive Event : Type :=
| Log (level : Level) (args : list LogArg)
| Fetch (url : string)
| Download (conf : DownloadConfig) (r : completion Exn string)
| Extract (zipPath dir : string) (r : completion Exn unit)
| Chmod (file : string) (mode : Z) (r : completion Exn unit).

(** An asynchronous computation: from a world to a completion, the world
    it leaves and the events it emitted. *)
Definition M (A : Type) : Type :=
  World -> completion Exn A * World * list Event.

Definition ret {A} (a : A) : M A := fun w => (Return a, w, []).

Definition throw {A} (e : Exn) : M A := fun w => (Throw e, w, []).

Definition bind {A B} (m : M A) (k : A -> M B) : M B :=
  fun w =>
    match m w with
    | (Return a, w1, tr1) =>
        let '(r, w2, tr2) := k a w1 in (r, w2, (tr1 ++ tr2)%list)
    | (Throw e, w1, tr1) => (Throw e, w1, tr1)
    end.

(** [try { m } catch (err) { h err }]. *)
Definition try_catch {A} (m : M A) (h : Exn -> M A) : M A :=
  fun w =>
    match m w with
    | (Return a, w1, tr1) => (Return a, w1, tr1)
    | (Throw e, w1, tr1) =>
        let '(r, w2, tr2) := h e w1 in (r, w2, (tr1 ++ tr2)%list)
    end.

(** A synchronous computation that may throw. *)
Definition lift {A} (c : completion Exn A) : M A := fun w => (c, w, []).

(** A collaborator call, recorded by [ev]. *)
Definition call {A} (f : World -> completion Exn A * World)
           (ev : completion Exn A -> Event) : M A :=
  fun w => let '(r, w1) := f w in (r, w1, [ev r]).

(** A collaborator call that leaves no event. *)
Definition silently {A} (f : World -> completion Exn A * World) : M A :=
  fun w => let '(r, w1) := f w in (r, w1, []).

Definition log (level : Level) (args : list LogArg) : M unit :=
  fun w => (Return tt, w, [Log level args]).

Notation "'let*' x ':=' m 'in' k" := (bind m (fun x => k))
  (at level 10, x name, m at level 100, k at level 200).
Notation "m ';;;' k" := (bind m (fun _ => k))
  (at level 100, k at level 200, right associativity).

(** *** Version resolution *)

(** [Array.prototype.sort] is stable; for a consistent comparator every
    stable sort returns the same array.  Insertion from the right is the
    representative chosen here; for a comparator that is not consistent
    the order is left to the engine, and what is proved about the order
    assumes [consistent_on].  A comparison that throws aborts the
    sort. *)
Fixpoint insertSorted {A} (cmp : A -> A -> completion Exn Z) (x : A)
         (l : list A) : completion Exn (list A) :=
  match l with
  | [] => Return [x]
  | y :: l' =>
      match cmp x y with
      | Throw e => Throw e
      | Return c =>
          if (c <=? 0)%Z then Return (x :: y :: l')
          else match insertSorted cmp x l' with
               | Throw e => Throw e
               | Return r => Return (y :: r)
               end
      end
  end.

Fixpoint Array_sort {A} (cmp : A -> A -> completion Exn Z) (l : list A)
  : completion Exn (list A) :=
  match l with
  | [] => Return []
  | x :: l' =>
      match Array_sort cmp l' with
      | Throw e => Throw e
      | Return s => insertSorted cmp x s
      end
  end.

(** The [forEach] that fills [electronChromiumVersionMap]. *)
Definition fillVersionMap (releases : list ElectronRelease)
  : gmap string string :=
  foldl (fun m r => plainSet m (version r) (chrome r)) ∅ releases.

Definition feedUrl : string := "https://electronjs.org/headers/index.json".

(** The comparator handed to [sort]:
    [({ version: a }, { version: b }) => compareVersions(a, b)]. *)
Definition byVersion (a b : ElectronRelease) : completion Exn Z :=
  compareVersions (version a) (version b).

(** [compareVersions] is a consistent comparator on the versions [vs], as
    ECMAScript requires of the argument of [sort] for the order of the
    result to be defined: it returns a number, finds every version equal
    to itself, and its three outcomes are symmetric and transitive. *)
Definition consistent_on (vs : list string) : Prop :=
  exists cmp : string -> string -> Z,
    (forall a b, a ∈ vs -> b ∈ vs -> compareVersions a b = Return (cmp a b)) /\
    (forall a, a ∈ vs -> cmp a a = 0%Z) /\
    (forall a b, a ∈ vs -> b ∈ vs -> cmp a b = 0%Z -> cmp b a = 0%Z) /\
    (forall a b c, a ∈ vs -> b ∈ vs -> c ∈ vs ->
                   (cmp a b = 0 -> cmp b c = 0 -> cmp a c = 0)%Z /\
                   (cmp a b < 0 -> cmp b c < 0 -> cmp a c < 0)%Z /\
                   (cmp a b > 0 -> cmp b c > 0 -> cmp a c > 0)%Z).

(** The statements of the [try] block of [getChromiumVersion] that
    build [electronChromiumVersionMap]. *)
Definition updateMap : M (gmap string string) :=
  let* body := call (fetch feedUrl) (fun _ => Fetch feedUrl) in
  let* allElectronVersions := silently (json body) in
  let* sorted := lift (Array_sort byVersion allElectronVersions) in
  ret (fillVersionMap sorted).

Definition getChromiumVersion (electronVersion : option string)
  : M PropertyValue :=
  log debug [LStr "Updating Electron - Chromium version map..."] ;;;
  try_catch
    (let* electronChromiumVersionMap := updateMap in
     ret (plainGet electronChromiumVersionMap (propertyKey electronVersion)))
    (fun e =>
       log debug [LStr "Map update failed."] ;;;
       ret (plainGet fullVersions (propertyKey electronVersion))).

(** *** Download, extraction, permissions *)

Definition downloadAssets (version : string) : M string :=
  let conf :=
    {| conf_version := version;
       conf_artifactName := "chromedriver";
       conf_force :=
         match force_no_cache env with
         | Some s => String.eqb s "true"
         | None => false
         end;
       conf_cacheRoot := electron_config_cache env;
       conf_platform := npm_config_platform env;
       conf_arch := npm_config_arch env |} in
  log debug [LStr "chromedriver download config: "; LConf conf] ;;;
  call (downloadArtifact conf) (Download conf).

(** The body of the [try] block of [attemptAssetsDownload]: one
    provisioning attempt. *)
Definition tryBlock (version : string) : M unit :=
  let targetFolder := path_join [__dirname; ".."; "bin"] in
  let* zipPath := downloadAssets version in
  log debug [LStr "assets downloaded to "; LStr zipPath] ;;;
  call (extractZip zipPath targetFolder) (Extract zipPath targetFolder) ;;;
  log debug [LStr "assets extracted"] ;;;
  let platform := Js.or_else (npm_config_platform env) (platform process) in
  if negb (String.eqb platform "win32") then
    log debug [LStr "setting file permissions..."] ;;;
    call (fs_chmod (path_join [targetFolder; "chromedriver"]) mode_0o755)
         (Chmod (path_join [targetFolder; "chromedriver"]) mode_0o755) ;;;
    log debug [LStr "permissions set"]
  else ret tt.

(** [attemptAssetsDownload]: one attempt; when it throws, either rethrow
    (the version is its own fallback) or start over with the fallback
    version.  A call without argument is the call at [""]. *)
Equations? attemptAssetsDownload (version : string) : M unit
  by wf (fallbacks version) lt :=
  attemptAssetsDownload version :=
    try_catch (tryBlock version)
      (fun err =>
         match decide (baseVersion version = version) with
         | left _ =>
             log error [LStr ("error downloading Chromedriver for Electron v" ++ version)] ;;;
             log error [LExn err] ;;;
             throw err
         | right Hne =>
             log warn [LStr ("error downloading Chromedriver for Electron v" ++ version)] ;;;
             log debug [LStr "falling back to minor version..."] ;;;
             attemptAssetsDownload (baseVersion version)
         end).
Proof. exact (fallbacks_baseVersion _ Hne). Qed.

(** *** Reading a run *)

(** The log lines of the two branches of the [catch] block. *)
Definition terminalLogs (version : string) (e : Exn) : list Event :=
  [Log error [LStr ("error downloading Chromedriver for Electron v" ++ version)];
   Log error [LExn e]].

Definition fallbackLogs (version : string) : list Event :=
  [Log warn [LStr ("error downloading Chromedriver for Electron v" ++ version)];
   Log debug [LStr "falling back to minor version..."]].

Definition result_of {A} (o : completion Exn A * World * list Event)
  : completion Exn A := o.1.1.

Definition events_of {A} (o : completion Exn A * World * list Event)
  : list Event := o.2.

(** The versions for which a download was requested, in order. *)
Definition attemptedVersions (tr : list Event) : list string :=
  omap (fun ev => match ev with
                  | Download conf _ => Some (conf_version conf)
                  | _ => None
                  end) tr.

(** [ev] is a collaborator call that threw [e]. *)
Definition thrown_by (e : Exn) (ev : Event) : Prop :=
  match ev with
  | Download _ (Throw e') | Extract _ _ (Throw e') | Chmod _ _ (Throw e') =>
      e' = e
  | _ => False
  end.

Definition is_log (ev : Event) : Prop :=
  match ev with Log _ _ => True | _ => False end.

(** Every [Chmod] of the trace comes after a successful [Extract], with
    nothing but log lines in between. *)
Definition chmod_follows_extract (tr : list Event) : Prop :=
  forall (i : nat) file mode r,
    tr !! i = Some (Chmod file mode r) ->
    exists (j : nat) zipPath dir,
      (j < i)%nat /\
      tr !! j = Some (Extract zipPath dir (Return tt)) /\
      forall (k : nat) ev, (j < k < i)%nat -> tr !! k = Some ev -> is_log ev.

Definition no_chmod (tr : list Event) : Prop :=
  forall (i : nat) file mode r, tr !! i <> Some (Chmod file mode r).

(** Every [Extract] of the trace unpacks, into [<__dirname>/../bin], the
    archive that the [Download] before it returned, with nothing but log
    lines in between. *)
Definition extract_follows_download (tr : list Event) : Prop :=
  forall (i : nat) zipPath dir r,
    tr !! i = Some (Extract zipPath dir r) ->
    dir = path_join [__dirname; ".."; "bin"] /\
    exists (j : nat) conf,
      (j < i)%nat /\
      tr !! j = Some (Download conf (Return zipPath)) /\
      forall (k : nat) ev, (j < k < i)%nat -> tr !! k = Some ev -> is_log ev.

(** The level of a log line; [None] for the other events. *)
Definition log_level (ev : Event) : option Level :=
  match ev with
  | Log level _ => Some level
  | _ => None
  end.

(** [conf] is what [downloadAssets] derives from the environment. *)
Definition conf_from_env (conf : DownloadConfig) : Prop :=
  conf_artifactName conf = "chromedriver" /\
  (conf_force conf = true <-> force_no_cache env = Some "true") /\
  conf_cacheRoot conf = electron_config_cache env /\
  conf_platform conf = npm_config_platform env /\
  conf_arch conf = npm_config_arch env.

(** *** Facts about one attempt *)

Ltac run_step :=
  match goal with
  | |- context [downloadArtifact ?c ?w] =>
      destruct (downloadArtifact c w) as [[?zip|?e] ?w] eqn:?
  | |- context [extractZip ?z ?d ?w] =>
      destruct (extractZip z d w) as [[[]|?e] ?w] eqn:?
  | |- context [fs_chmod ?f ?m ?w] =>
      destruct (fs_chmod f m w) as [[[]|?e] ?w] eqn:?
  | |- context [negb (String.eqb ?a ?b)] =>
      destruct (String.eqb a b) eqn:?
  end; cbn.

Ltac run_tryBlock :=
  unfold tryBlock, downloadAssets, bind, call, log, ret; cbn;
  repeat run_step.

Lemma tryBlock_attemptedVersions version w :
  attemptedVersions (events_of (tryBlock version w)) = [version].
Proof. run_tryBlock; reflexivity. Qed.

Lemma tryBlock_throw_origin version w e w1 tr1 :
  tryBlock version w = (Throw e, w1, tr1) ->
  exists pre ev, tr1 = (pre ++ [ev])%list /\ thrown_by e ev.
Proof.
  run_tryBlock; intros [= <- <- <-].
  - eexists [_; _; _; _; _; _], _. split; [reflexivity|]. reflexivity.
  - eexists [_; _; _], _. split; [reflexivity|]. reflexivity.
  - eexists [_], _. split; [reflexivity|]. reflexivity.
Qed.

(** *** Unfolding [attemptAssetsDownload] along the outcome of the
    attempt *)

Lemma attemptAssetsDownload_success version w w1 tr1 :
  tryBlock version w = (Return tt, w1, tr1) ->
  attemptAssetsDownload version w = (Return tt, w1, tr1).
Proof.
  intros Htry. rewrite attemptAssetsDownload_equation_1.
  unfold try_catch. now rewrite Htry.
Qed.

Lemma attemptAssetsDownload_terminal version w e w1 tr1 :
  baseVersion version = version ->
  tryBlock version w = (Throw e, w1, tr1) ->
  attemptAssetsDownload version w
  = (Throw e, w1, (tr1 ++ terminalLogs version e)%list).
Proof.
  intros Hbase Htry. rewrite attemptAssetsDownload_equation_1.
  unfold try_catch. rewrite Htry.
  destruct (decide (baseVersion version = version)) as [_|Hne]; [|contradiction].
  reflexivity.
Qed.

Lemma attemptAssetsDownload_fallback version w e w1 tr1 :
  baseVersion version <> version ->
  tryBlock version w = (Throw e, w1, tr1) ->
  attemptAssetsDownload version w
  = let '(r, w2, tr2) := attemptAssetsDownload (baseVersion version) w1 in
    (r, w2, (tr1 ++ fallbackLogs version ++ tr2)%list).
Proof.
  intros Hne Htry. rewrite attemptAssetsDownload_equation_1.
  unfold try_catch. rewrite Htry.
  destruct (decide (baseVersion version = version)) as [Heq|_]; [contradiction|].
  unfold bind, log. cbn.
  destruct (attemptAssetsDownload (baseVersion version) w1) as [[r w2] tr2].
  reflexivity.
Qed.

Lemma attemptedVersions_app tr tr' :
  attemptedVersions (tr ++ tr')
  = (attemptedVersions tr ++ attemptedVersions tr')%list.
Proof. apply omap_app. Qed.

Lemma tryBlock_attemptedVersions_eq version w r w1 tr1 :
  tryBlock version w = (r, w1, tr1) -> attemptedVersions tr1 = [version].
Proof.
  intros Htry. pose proof (tryBlock_attemptedVersions version w) as H.
  now rewrite Htry in H.
Qed.

Lemma attempted_success version w w1 tr1 :
  tryBlock version w = (Return tt, w1, tr1) ->
  attemptedVersions (events_of (attemptAssetsDownload version w)) = [version].
Proof.
  intros Htry. rewrite (attemptAssetsDownload_success _ _ _ _ Htry).
  exact (tryBlock_attemptedVersions_eq _ _ _ _ _ Htry).
Qed.

Lemma attempted_terminal version w e w1 tr1 :
  baseVersion version = version ->
  tryBlock version w = (Throw e, w1, tr1) ->
  attemptedVersions (events_of (attemptAssetsDownload version w)) = [version].
Proof.
  intros Hbase Htry.
  rewrite (attemptAssetsDownload_terminal _ _ _ _ _ Hbase Htry).
  unfold events_of; cbn -[attemptedVersions terminalLogs].
  rewrite attemptedVersions_app,
    (tryBlock_attemptedVersions_eq _ _ _ _ _ Htry).
  reflexivity.
Qed.

Lemma attempted_fallback version w e w1 tr1 :
  baseVersion version <> version ->
  tryBlock version w = (Throw e, w1, tr1) ->
  attemptedVersions (events_of (attemptAssetsDownload version w))
  = [version; baseVersion version].
Proof.
  intros Hne Htry.
  rewrite (attemptAssetsDownload_fallback _ _ _ _ _ Hne Htry).
  pose proof (tryBlock_attemptedVersions_eq _ _ _ _ _ Htry) as Hv1.
  destruct (tryBlock (baseVersion version) w1) as [[[[]|e2] w2] tr2] eqn:Htry2.
  - pose proof (attempted_success _ _ _ _ Htry2) as Hv2.
    destruct (attemptAssetsDownload (baseVersion version) w1) as [[r w3] tr3].
    unfold events_of in *; cbn -[attemptedVersions fallbackLogs] in *.
    rewrite !attemptedVersions_app, Hv1, Hv2. reflexivity.
  - pose proof (attempted_terminal _ _ _ _ _ (baseVersion_fixed version) Htry2)
      as Hv2.
    destruct (attemptAssetsDownload (baseVersion version) w1) as [[r w3] tr3].
    unfold events_of in *; cbn -[attemptedVersions fallbackLogs] in *.
    rewrite !attemptedVersions_app, Hv1, Hv2. reflexivity.
Qed.

(** *** The fallback protocol *)

(** C1.  When the attempt for a version that is not its own fallback
    throws, [attemptAssetsDownload] makes exactly one more attempt, for
    [baseVersion version], in the world the first attempt left.  If
    that attempt returns, the call returns; if it throws [e2], the call
    throws [e2], the error of the second attempt. *)
Theorem fallback_retries_once_with_base version w e w1 tr1 :
  baseVersion version <> version ->
  tryBlock version w = (Throw e, w1, tr1) ->
  exists r2 w2 tr2,
    tryBlock (baseVersion version) w1 = (r2, w2, tr2) /\
    attemptedVersions (events_of (attemptAssetsDownload version w))
    = [version; baseVersion version] /\
    match r2 with
    | Return _ =>
        attemptAssetsDownload version w
        = (Return tt, w2, (tr1 ++ fallbackLogs version ++ tr2)%list)
    | Throw e2 =>
        attemptAssetsDownload version w
        = (Throw e2, w2,
           (tr1 ++ fallbackLogs version ++ tr2
                ++ terminalLogs (baseVersion version) e2)%list) /\
        exists pre ev, tr2 = (pre ++ [ev])%list /\ thrown_by e2 ev
    end.
Proof.
  intros Hne Htry.
  destruct (tryBlock (baseVersion version) w1) as [[r2 w2] tr2] eqn:Htry2.
  exists r2, w2, tr2. split; [reflexivity|].
  split; [exact (attempted_fallback _ _ _ _ _ Hne Htry)|].
  rewrite (attemptAssetsDownload_fallback _ _ _ _ _ Hne Htry).
  destruct r2 as [[]|e2].
  - now rewrite (attemptAssetsDownload_success _ _ _ _ Htry2).
  - rewrite (attemptAssetsDownload_terminal _ _ _ _ _
               (baseVersion_fixed version) Htry2).
    split; [reflexivity | eapply tryBlock_throw_origin; eassumption].
Qed.

(** C2.  When the attempt for a version that is its own fallback throws
    [e], [attemptAssetsDownload] makes no further attempt: it logs two
    error lines (the message and [e] itself) and throws [e], the value
    that the failing collaborator call threw. *)
Theorem baseline_failure_is_terminal version w e w1 tr1 :
  baseVersion version = version ->
  tryBlock version w = (Throw e, w1, tr1) ->
  attemptAssetsDownload version w
  = (Throw e, w1,
     (tr1 ++ [Log error [LStr ("error downloading Chromedriver for Electron v" ++ version)];
              Log error [LExn e]])%list) /\
  attemptedVersions (events_of (attemptAssetsDownload version w)) = [version] /\
  exists pre ev, tr1 = (pre ++ [ev])%list /\ thrown_by e ev.
Proof.
  intros Hbase Htry.
  split; [exact (attemptAssetsDownload_terminal _ _ _ _ _ Hbase Htry)|].
  split; [exact (attempted_terminal _ _ _ _ _ Hbase Htry)|].
  eapply tryBlock_throw_origin; eassumption.
Qed.

(** C10.  For every version string, [baseVersion] is idempotent and a
    call of [attemptAssetsDownload] (a total function) requests at most
    two downloads: one for [version], and possibly one for
    [baseVersion version]. *)
Theorem at_most_two_attempts version w :
  baseVersion (baseVersion version) = baseVersion version /\
  (attemptedVersions (events_of (attemptAssetsDownload version w)) = [version]
   \/ attemptedVersions (events_of (attemptAssetsDownload version w))
      = [version; baseVersion version]) /\
  (length (attemptedVersions (events_of (attemptAssetsDownload version w)))
   <= 2)%nat.
Proof.
  split; [apply baseVersion_fixed|].
  assert (attemptedVersions (events_of (attemptAssetsDownload version w))
            = [version]
          \/ attemptedVersions (events_of (attemptAssetsDownload version w))
             = [version; baseVersion version]) as Hcases.
  { destruct (tryBlock version w) as [[[[]|e] w1] tr1] eqn:Htry.
    - left. exact (attempted_success _ _ _ _ Htry).
    - destruct (decide (baseVersion version = version)) as [Hbase|Hne].
      + left. exact (attempted_terminal _ _ _ _ _ Hbase Htry).
      + right. exact (attempted_fallback _ _ _ _ _ Hne Htry). }
  split; [exact Hcases|].
  destruct Hcases as [-> | ->]; simpl; lia.
Qed.

(** *** Permissions come after extraction *)

Ltac at_index i H :=
  let rec go n :=
    lazymatch n with
    | O => cbn in H; try discriminate H
    | S ?n' => destruct i as [|i]; [cbn in H; try discriminate H | go n']
    end in
  go 9%nat.

Lemma tryBlock_chmod_follows_extract version w :
  chmod_follows_extract (events_of (tryBlock version w)).
Proof.
  unfold chmod_follows_extract, events_of.
  run_tryBlock; intros i file mode r Hi; at_index i Hi.
  all: exists 3%nat; do 2 eexists; split; [lia|]; split; [reflexivity|].
  all: intros k ev Hk Hev; at_index k Hev; try lia.
  all: injection Hev as <-; exact I.
Qed.

Lemma tryBlock_chmod_args version w (i : nat) file mode r :
  events_of (tryBlock version w) !! i = Some (Chmod file mode r) ->
  file = path_join [path_join [__dirname; ".."; "bin"]; "chromedriver"] /\
  mode = mode_0o755 /\
  Js.or_else (npm_config_platform env) (platform process) <> "win32".
Proof.
  unfold events_of. run_tryBlock; intros Hi; at_index i Hi.
  all: injection Hi as <- <- <-; repeat split; try reflexivity.
  all: intros Hw;
    match goal with
    | H : String.eqb _ _ = false |- _ => rewrite Hw in H; discriminate H
    end.
Qed.

Lemma or_else_win32 :
  default (platform process) (npm_config_platform env) = "win32" ->
  Js.or_else (npm_config_platform env) (platform process) = "win32".
Proof.
  unfold Js.or_else. destruct (npm_config_platform env) as [s|]; cbn.
  - intros ->. reflexivity.
  - intros H. exact H.
Qed.

Lemma chmod_follows_extract_app tr tr' :
  chmod_follows_extract tr -> chmod_follows_extract tr' ->
  chmod_follows_extract (tr ++ tr').
Proof.
  intros H1 H2 i file mode r Hi.
  destruct (decide (i < length tr)%nat) as [Hlt|Hge].
  - rewrite lookup_app_l in Hi by exact Hlt.
    destruct (H1 _ _ _ _ Hi) as (j & zipPath & dir & Hj & Hext & Hlogs).
    exists j, zipPath, dir. split; [exact Hj|]. split.
    + rewrite lookup_app_l by lia. exact Hext.
    + intros k ev Hk Hev. rewrite lookup_app_l in Hev by lia. eauto.
  - rewrite lookup_app_r in Hi by lia.
    destruct (H2 _ _ _ _ Hi) as (j & zipPath & dir & Hj & Hext & Hlogs).
    exists (length tr + j)%nat, zipPath, dir. split; [lia|]. split.
    + rewrite lookup_app_r by lia.
      replace (length tr + j - length tr)%nat with j by lia. exact Hext.
    + intros k ev Hk Hev. rewrite lookup_app_r in Hev by lia.
      apply (Hlogs (k - length tr)%nat); [lia | exact Hev].
Qed.

Lemma chmod_follows_extract_logs tr :
  Forall is_log tr -> chmod_follows_extract tr.
Proof.
  intros Hall i file mode r Hi.
  rewrite Forall_lookup in Hall. exact (False_ind _ (Hall _ _ Hi)).
Qed.

(** C9.  In the trace of one attempt, every [Chmod] is the call
    [chmod(<targetFolder>/chromedriver, 0o755)]; a successful [Extract]
    comes before it with only log lines in between; and the platform
    ([npm_config_platform || process.platform], and likewise the override
    when set or else the host platform) is not [win32].  On [win32] the
    trace has no [Chmod]. *)
Theorem chmod_only_after_extract_off_win32 version w :
  (forall (i : nat) file mode r,
      events_of (tryBlock version w) !! i = Some (Chmod file mode r) ->
      file = path_join [path_join [__dirname; ".."; "bin"]; "chromedriver"] /\
      mode = 493%Z /\
      Js.or_else (npm_config_platform env) (platform process) <> "win32" /\
      default (platform process) (npm_config_platform env) <> "win32" /\
      exists (j : nat) zipPath dir,
        (j < i)%nat /\
        events_of (tryBlock version w) !! j
        = Some (Extract zipPath dir (Return tt)) /\
        forall (k : nat) ev,
          (j < k < i)%nat ->
          events_of (tryBlock version w) !! k = Some ev -> is_log ev) /\
  (Js.or_else (npm_config_platform env) (platform process) = "win32" ->
   no_chmod (events_of (tryBlock version w))) /\
  (default (platform process) (npm_config_platform env) = "win32" ->
   no_chmod (events_of (tryBlock version w))).
Proof.
  assert (Js.or_else (npm_config_platform env) (platform process) = "win32" ->
          no_chmod (events_of (tryBlock version w))) as Hwin.
  { intros Hw i file mode r Hi.
    destruct (tryBlock_chmod_args _ _ _ _ _ _ Hi) as (_ & _ & Hne).
    exact (Hne Hw). }
  split; [|split; [exact Hwin | intros Hw; exact (Hwin (or_else_win32 Hw))]].
  intros i file mode r Hi.
  destruct (tryBlock_chmod_args _ _ _ _ _ _ Hi) as (Hfile & Hmode & Hne).
  split; [exact Hfile|]. split; [exact Hmode|]. split; [exact Hne|].
  split; [intros Hw; exact (Hne (or_else_win32 Hw))|].
  exact (tryBlock_chmod_follows_extract _ _ _ _ _ _ Hi).
Qed.

(** The same ordering holds over a whole call, fallback included. *)
Lemma attemptAssetsDownload_chmod_follows_extract version w :
  chmod_follows_extract (events_of (attemptAssetsDownload version w)).
Proof.
  assert (forall v w0, baseVersion v = v ->
             chmod_follows_extract (events_of (attemptAssetsDownload v w0)))
    as Hterm.
  { intros v w0 Hbase.
    pose proof (tryBlock_chmod_follows_extract v w0) as Htr.
    destruct (tryBlock v w0) as [[[[]|e] w1] tr1] eqn:Htry.
    - now rewrite (attemptAssetsDownload_success _ _ _ _ Htry).
    - rewrite (attemptAssetsDownload_terminal _ _ _ _ _ Hbase Htry).
      apply chmod_follows_extract_app; [exact Htr|].
      apply chmod_follows_extract_logs. repeat constructor. }
  destruct (decide (baseVersion version = version)) as [Hbase|Hne];
    [exact (Hterm _ _ Hbase)|].
  pose proof (tryBlock_chmod_follows_extract version w) as Htr.
  destruct (tryBlock version w) as [[[[]|e] w1] tr1] eqn:Htry.
  - now rewrite (attemptAssetsDownload_success _ _ _ _ Htry).
  - rewrite (attemptAssetsDownload_fallback _ _ _ _ _ Hne Htry).
    pose proof (Hterm (baseVersion version) w1 (baseVersion_fixed version))
      as Hrec.
    destruct (attemptAssetsDownload (baseVersion version) w1) as [[r w2] tr2].
    apply chmod_follows_extract_app; [exact Htr|].
    apply chmod_follows_extract_app; [|exact Hrec].
    apply chmod_follows_extract_logs. repeat constructor.
Qed.

(** *** Version resolution *)

Lemma updateMap_run w :
  updateMap w
  = match fetch feedUrl w with
    | (Throw e, w1) => (Throw e, w1, [Fetch feedUrl])
    | (Return body, w1) =>
        match json body w1 with
        | (Throw e, w2) => (Throw e, w2, [Fetch feedUrl])
        | (Return feed, w2) =>
            (match Array_sort byVersion feed with
             | Return sorted => Return (fillVersionMap sorted)
             | Throw e => Throw e
             end, w2, [Fetch feedUrl])
        end
    end.
Proof.
  unfold updateMap, bind, call, silently, lift, ret.
  destruct (fetch _ w) as [[body|e] w1]; [|reflexivity].
  destruct (json body w1) as [[feed|e] w2]; [|reflexivity].
  destruct (Array_sort _ feed) as [sorted|e]; reflexivity.
Qed.

Lemma getChromiumVersion_run electronVersion w :
  getChromiumVersion electronVersion w
  = match updateMap w with
    | (Return m, w1, tr1) =>
        (Return (plainGet m (propertyKey electronVersion)), w1,
         Log debug [LStr "Updating Electron - Chromium version map..."] :: tr1)
    | (Throw e, w1, tr1) =>
        (Return (plainGet fullVersions (propertyKey electronVersion)), w1,
         Log debug [LStr "Updating Electron - Chromium version map..."]
           :: (tr1 ++ [Log debug [LStr "Map update failed."]])%list)
    end.
Proof.
  unfold getChromiumVersion, bind, try_catch, log, ret.
  destruct (updateMap w) as [[[m|e] w1] tr1]; cbn.
  - now rewrite !app_nil_r.
  - reflexivity.
Qed.

Lemma insertSorted_Permutation {A} (cmp : A -> A -> completion Exn Z) x l r :
  insertSorted cmp x l = Return r -> Permutation r (x :: l).
Proof.
  revert r. induction l as [|y l IH]; intros r; cbn.
  - intros [= <-]. reflexivity.
  - destruct (cmp x y) as [c|e]; [|discriminate].
    destruct (c <=? 0)%Z; [intros [= <-]; reflexivity|].
    destruct (insertSorted cmp x l) as [r'|e]; [|discriminate].
    intros [= <-]. rewrite (IH r' eq_refl). apply perm_swap.
Qed.

Lemma Array_sort_Permutation {A} (cmp : A -> A -> completion Exn Z) l s :
  Array_sort cmp l = Return s -> Permutation s l.
Proof.
  revert s. induction l as [|x l IH]; intros s; cbn.
  - intros [= <-]. reflexivity.
  - destruct (Array_sort cmp l) as [s'|e]; [|discriminate].
    intros Hins. rewrite (insertSorted_Permutation _ _ _ _ Hins).
    constructor. exact (IH s' eq_refl).
Qed.

Lemma plainSet_lookup_ne (o : gmap string string) k v k' :
  k <> k' -> plainSet o k v !! k' = o !! k'.
Proof.
  intros Hne. unfold plainSet. destruct (bool_decide (k = "__proto__"));
    [reflexivity | now apply lookup_insert_ne].
Qed.

Lemma plainSet_commute (o : gmap string string) k1 v1 k2 v2 :
  k1 <> k2 ->
  plainSet (plainSet o k1 v1) k2 v2 = plainSet (plainSet o k2 v2) k1 v1.
Proof.
  intros Hne. unfold plainSet.
  destruct (bool_decide (k1 = "__proto__")), (bool_decide (k2 = "__proto__"));
    try reflexivity.
  now apply insert_insert_ne.
Qed.




(** C3.  When the fetch of the feed throws, or the fetch returns and
    parsing its body throws, [getChromiumVersion] returns (it does not
    throw) the entry of [fullVersions] for the requested version, and the
    failure only shows as the debug line ["Map update failed."]. *)
Theorem feed_failure_falls_back_to_table electronVersion w :
  (exists e w1, fetch feedUrl w = (Throw e, w1)) \/
  (exists body w1 e w2,
      fetch feedUrl w = (Return body, w1) /\ json body w1 = (Throw e, w2)) ->
  exists w' tr,
    getChromiumVersion electronVersion w
    = (Return (plainGet fullVersions (propertyKey electronVersion)), w', tr) /\
    (forall chromeVersion,
        fullVersions !! propertyKey electronVersion = Some chromeVersion ->
        getChromiumVersion electronVersion w
        = (Return (Own chromeVersion), w', tr)) /\
    Log debug [LStr "Map update failed."] ∈ tr /\
    (forall lvl args, Log lvl args ∈ tr -> lvl = debug).
Proof.
  intros Hfail. rewrite getChromiumVersion_run, updateMap_run.
  assert (forall tr : list Event,
             tr = [Log debug [LStr "Updating Electron - Chromium version map..."];
                   Fetch feedUrl;
                   Log debug [LStr "Map update failed."]] ->
             Log debug [LStr "Map update failed."] ∈ tr /\
             (forall lvl args, Log lvl args ∈ tr -> lvl = debug)) as Htrace.
  { intros tr ->. split.
    - rewrite !elem_of_cons. right. right. now left.
    - intros lvl args Hin.
      apply elem_of_cons in Hin as [[= -> _]|Hin]; [reflexivity|].
      apply elem_of_cons in Hin as [[=]|Hin].
      apply list_elem_of_singleton in Hin as [= -> _]. reflexivity. }
  destruct Hfail as [(e & w1 & Hf) | (body & w1 & e & w2 & Hf & Hj)].
  - rewrite Hf. do 2 eexists. split; [reflexivity|].
    split; [intros c Hc; unfold plainGet; now rewrite Hc | now apply Htrace].
  - rewrite Hf, Hj. do 2 eexists. split; [reflexivity|].
    split; [intros c Hc; unfold plainGet; now rewrite Hc | now apply Htrace].
Qed.



(** *** The shape of a whole call *)

Lemma attemptAssetsDownload_shape version w :
  exists r1 w1 tr1,
    tryBlock version w = (r1, w1, tr1) /\
    match r1 with
    | Return _ => attemptAssetsDownload version w = (Return tt, w1, tr1)
    | Throw e =>
        (baseVersion version = version /\
         attemptAssetsDownload version w
         = (Throw e, w1, (tr1 ++ terminalLogs version e)%list)) \/
        (baseVersion version <> version /\
         exists r2 w2 tr2,
           tryBlock (baseVersion version) w1 = (r2, w2, tr2) /\
           match r2 with
           | Return _ =>
               attemptAssetsDownload version w
               = (Return tt, w2, (tr1 ++ fallbackLogs version ++ tr2)%list)
           | Throw e2 =>
               attemptAssetsDownload version w
               = (Throw e2, w2,
                  (tr1 ++ fallbackLogs version ++ tr2
                       ++ terminalLogs (baseVersion version) e2)%list)
           end)
    end.
Proof.
  destruct (tryBlock version w) as [[[[]|e] w1] tr1] eqn:Htry;
    do 3 eexists; (split; [reflexivity|]).
  - exact (attemptAssetsDownload_success _ _ _ _ Htry).
  - destruct (decide (baseVersion version = version)) as [Hbase|Hne].
    + left. split; [exact Hbase|].
      exact (attemptAssetsDownload_terminal _ _ _ _ _ Hbase Htry).
    + right. split; [exact Hne|].
      rewrite (attemptAssetsDownload_fallback _ _ _ _ _ Hne Htry).
      destruct (tryBlock (baseVersion version) w1) as [[[[]|e2] w2] tr2] eqn:Htry2;
        do 3 eexists; (split; [reflexivity|]).
      * now rewrite (attemptAssetsDownload_success _ _ _ _ Htry2).
      * now rewrite (attemptAssetsDownload_terminal _ _ _ _ _
                       (baseVersion_fixed version) Htry2).
Qed.

(** A property of single events that holds along every attempt and for the
    log lines of the [catch] block holds along the whole call. *)
Lemma attemptAssetsDownload_Forall (P : string -> Event -> Prop) version w :
  (forall v w0, Forall (P v) (events_of (tryBlock v w0))) ->
  (forall v e, Forall (P v) (terminalLogs v e)) ->
  Forall (P version) (fallbackLogs version) ->
  (forall ev, P (baseVersion version) ev -> P version ev) ->
  Forall (P version) (events_of (attemptAssetsDownload version w)).
Proof.
  intros Htry Hterm Hfall Hbase.
  destruct (attemptAssetsDownload_shape version w)
    as (r1 & w1 & tr1 & Htry1 & Hshape).
  pose proof (Htry version w) as H1. rewrite Htry1 in H1. unfold events_of in *.
  cbn in H1.
  destruct r1 as [[]|e].
  - now rewrite Hshape.
  - destruct Hshape as [[_ ->] | (_ & r2 & w2 & tr2 & Htry2 & Hshape)]; cbn.
    + apply Forall_app. split; [exact H1 | apply Hterm].
    + pose proof (Htry (baseVersion version) w1) as H2. rewrite Htry2 in H2.
      cbn in H2.
      assert (Forall (P version) tr2) as H2'
          by (eapply Forall_impl; [exact H2 | exact Hbase]).
      destruct r2 as [[]|e2]; rewrite Hshape; cbn -[fallbackLogs terminalLogs];
        repeat (apply Forall_app; split); try assumption.
      eapply Forall_impl; [apply Hterm | exact Hbase].
Qed.

(** *** What a whole call logs, downloads and unpacks *)

Lemma tryBlock_logs_debug version w :
  Forall (fun ev => forall level, log_level ev = Some level -> level = debug)
         (events_of (tryBlock version w)).
Proof.
  unfold events_of. run_tryBlock.
  all: repeat constructor; cbn; intros level; congruence.
Qed.

Lemma logs_debug_not level tr :
  level <> debug ->
  Forall (fun ev => forall l, log_level ev = Some l -> l = debug) tr ->
  Forall (fun ev => log_level ev <> Some level) tr.
Proof.
  intros Hne Hall. eapply Forall_impl; [exact Hall|].
  intros ev Hev Hlvl. apply Hne. exact (Hev _ Hlvl).
Qed.

Lemma tryBlock_last_attempted version w r w1 tr1 tr' :
  tryBlock version w = (r, w1, tr1) ->
  attemptedVersions tr' = [] ->
  forall tr0, last (attemptedVersions (tr0 ++ tr1 ++ tr')) = Some version.
Proof.
  intros Htry Hnil tr0.
  rewrite !attemptedVersions_app, Hnil,
    (tryBlock_attemptedVersions_eq _ _ _ _ _ Htry), app_nil_r.
  apply last_snoc.
Qed.

(** X3.  A call that throws [e] ends its trace with the two error lines of
    the [catch] block, for the version attempted last, the second of them
    carrying [e]; a call that returns has logged nothing at level
    [error]. *)
Theorem error_lines_exactly_on_throw version w :
  match result_of (attemptAssetsDownload version w) with
  | Throw e =>
      exists pre v,
        last (attemptedVersions (events_of (attemptAssetsDownload version w)))
        = Some v /\
        events_of (attemptAssetsDownload version w)
        = (pre ++ [Log error [LStr ("error downloading Chromedriver for Electron v" ++ v)];
                   Log error [LExn e]])%list
  | Return _ =>
      Forall (fun ev => log_level ev <> Some error)
             (events_of (attemptAssetsDownload version w))
  end.
Proof.
  destruct (attemptAssetsDownload_shape version w)
    as (r1 & w1 & tr1 & Htry1 & Hshape).
  pose proof (tryBlock_logs_debug version w) as Hdebug1.
  rewrite Htry1 in Hdebug1. unfold events_of in Hdebug1. cbn in Hdebug1.
  destruct r1 as [[]|e].
  - rewrite Hshape. cbn. now apply (logs_debug_not error).
  - destruct Hshape as [[_ ->] | (_ & r2 & w2 & tr2 & Htry2 & Hshape)].
    + cbn -[attemptedVersions]. exists tr1, version. split; [|reflexivity].
      rewrite <- (app_nil_l (tr1 ++ _)).
      exact (tryBlock_last_attempted _ _ _ _ _ (terminalLogs version e)
               Htry1 eq_refl []).
    + pose proof (tryBlock_logs_debug (baseVersion version) w1) as Hdebug2.
      rewrite Htry2 in Hdebug2. unfold events_of in Hdebug2. cbn in Hdebug2.
      destruct r2 as [[]|e2]; rewrite Hshape;
        unfold result_of, events_of; cbn [fst snd].
      * apply Forall_app. split; [now apply (logs_debug_not error)|].
        apply Forall_app. split; [repeat constructor; discriminate|].
        now apply (logs_debug_not error).
      * exists (tr1 ++ fallbackLogs version ++ tr2)%list, (baseVersion version).
        split.
        -- rewrite (app_assoc tr1).
           exact (tryBlock_last_attempted _ _ _ _ _
                    (terminalLogs (baseVersion version) e2) Htry2 eq_refl _).
        -- now rewrite <- !app_assoc.
Qed.

(** X4.  The trace holds a line at level [warn] exactly when a second
    download, for the fallback version, was requested. *)
Theorem warning_exactly_on_fallback version w :
  Exists (fun ev => log_level ev = Some warn)
         (events_of (attemptAssetsDownload version w))
  <-> attemptedVersions (events_of (attemptAssetsDownload version w))
      = [version; baseVersion version].
Proof.
  destruct (attemptAssetsDownload_shape version w)
    as (r1 & w1 & tr1 & Htry1 & Hshape).
  pose proof (tryBlock_logs_debug version w) as Hdebug1.
  rewrite Htry1 in Hdebug1. unfold events_of in Hdebug1. cbn in Hdebug1.
  apply (logs_debug_not warn) in Hdebug1; [|discriminate].
  assert (forall (tr : list Event),
             Forall (fun ev => log_level ev <> Some warn) tr ->
             Exists (fun ev => log_level ev = Some warn) tr -> False) as Hno.
  { intros tr Hall Hex. apply Exists_exists in Hex as (ev & Hin & Hev).
    rewrite Forall_forall in Hall. exact (Hall _ Hin Hev). }
  destruct r1 as [[]|e].
  - pose proof (attempted_success _ _ _ _ Htry1) as Hv.
    rewrite Hv, Hshape. cbn. split; [intros Hex | discriminate].
    exfalso. exact (Hno _ Hdebug1 Hex).
  - destruct Hshape as [[Hbase Hrun] | (Hne & _)].
    + pose proof (attempted_terminal _ _ _ _ _ Hbase Htry1) as Hv.
      rewrite Hv, Hrun. cbn. split; [intros Hex | discriminate].
      exfalso. apply (Hno (tr1 ++ terminalLogs version e)%list); [|exact Hex].
      apply Forall_app. split; [exact Hdebug1|].
      repeat constructor; discriminate.
    + pose proof (attempted_fallback _ _ _ _ _ Hne Htry1) as Hv.
      rewrite Hv. split; [reflexivity | intros _].
      rewrite (attemptAssetsDownload_fallback _ _ _ _ _ Hne Htry1).
      destruct (attemptAssetsDownload (baseVersion version) w1) as [[r w2] tr2].
      cbn. apply Exists_app. right. now left.
Qed.

Lemma conf_from_env_intro version :
  conf_from_env
    {| conf_version := version;
       conf_artifactName := "chromedriver";
       conf_force :=
         match force_no_cache env with
         | Some s => String.eqb s "true"
         | None => false
         end;
       conf_cacheRoot := electron_config_cache env;
       conf_platform := npm_config_platform env;
       conf_arch := npm_config_arch env |}.
Proof.
  unfold conf_from_env; cbn. split; [reflexivity|].
  split; [|repeat split]. split.
  - destruct (force_no_cache env) as [flag|]; [|discriminate].
    intros Hflag. apply String.eqb_eq in Hflag. now subst.
  - intros ->. reflexivity.
Qed.

(** X5.  Every download a call requests, the fallback one included, asks
    for the [chromedriver] artifact with the settings of the environment
    ([force] only for [force_no_cache === 'true']), and for no other
    version than [version] and its fallback. *)
Theorem downloads_follow_environment version w :
  Forall (fun ev =>
            match ev with
            | Download conf _ =>
                conf_from_env conf /\
                (conf_version conf = version \/
                 conf_version conf = baseVersion version)
            | _ => True
            end)
         (events_of (attemptAssetsDownload version w)).
Proof.
  apply (attemptAssetsDownload_Forall
           (fun v ev =>
              match ev with
              | Download conf _ =>
                  conf_from_env conf /\
                  (conf_version conf = v \/ conf_version conf = baseVersion v)
              | _ => True
              end)).
  - intros v w0. unfold events_of. run_tryBlock.
    all: repeat match goal with
                | |- Forall _ (_ :: _) => constructor
                | |- Forall _ [] => constructor
                | |- True => exact I
                | |- _ /\ _ => split; [apply conf_from_env_intro | now left]
                end.
  - intros v e. repeat constructor.
  - repeat constructor.
  - intros [] ; try easy. intros [Hconf [Hv|Hv]]; (split; [exact Hconf|]).
    + now right.
    + right. now rewrite Hv, baseVersion_fixed.
Qed.

Lemma tryBlock_extract_follows_download version w :
  extract_follows_download (events_of (tryBlock version w)).
Proof.
  unfold extract_follows_download, events_of.
  run_tryBlock; intros i zipPath dir r Hi; at_index i Hi.
  all: injection Hi as <- <- <-; split; [reflexivity|].
  all: exists 1%nat; eexists; split; [lia|]; split; [reflexivity|].
  all: intros k ev Hk Hev; at_index k Hev; try lia.
  all: injection Hev as <-; exact I.
Qed.

Lemma extract_follows_download_app tr tr' :
  extract_follows_download tr -> extract_follows_download tr' ->
  extract_follows_download (tr ++ tr').
Proof.
  intros H1 H2 i zipPath dir r Hi.
  destruct (decide (i < length tr)%nat) as [Hlt|Hge].
  - rewrite lookup_app_l in Hi by exact Hlt.
    destruct (H1 _ _ _ _ Hi) as (Hdir & j & conf & Hj & Hdl & Hlogs).
    split; [exact Hdir|]. exists j, conf. split; [exact Hj|]. split.
    + rewrite lookup_app_l by lia. exact Hdl.
    + intros k ev Hk Hev. rewrite lookup_app_l in Hev by lia. eauto.
  - rewrite lookup_app_r in Hi by lia.
    destruct (H2 _ _ _ _ Hi) as (Hdir & j & conf & Hj & Hdl & Hlogs).
    split; [exact Hdir|]. exists (length tr + j)%nat, conf.
    split; [lia|]. split.
    + rewrite lookup_app_r by lia.
      replace (length tr + j - length tr)%nat with j by lia. exact Hdl.
    + intros k ev Hk Hev. rewrite lookup_app_r in Hev by lia.
      apply (Hlogs (k - length tr)%nat); [lia | exact Hev].
Qed.

Lemma extract_follows_download_logs tr :
  Forall is_log tr -> extract_follows_download tr.
Proof.
  intros Hall i zipPath dir r Hi.
  rewrite Forall_lookup in Hall. exact (False_ind _ (Hall _ _ Hi)).
Qed.

(** X6.  Along a whole call, whatever is unpacked is the archive that the
    download just before it returned, and it is unpacked into
    [<__dirname>/../bin]: nothing is extracted after a failed download,
    and the fallback attempt unpacks its own archive. *)
Theorem extraction_uses_the_downloaded_archive version w :
  extract_follows_download (events_of (attemptAssetsDownload version w)).
Proof.
  destruct (attemptAssetsDownload_shape version w)
    as (r1 & w1 & tr1 & Htry1 & Hshape).
  pose proof (tryBlock_extract_follows_download version w) as H1.
  rewrite Htry1 in H1. unfold events_of in *. cbn [snd] in H1.
  destruct r1 as [[]|e].
  - now rewrite Hshape.
  - destruct Hshape as [[_ ->] | (_ & r2 & w2 & tr2 & Htry2 & Hshape)];
      cbn [snd].
    + apply extract_follows_download_app; [exact H1|].
      apply extract_follows_download_logs. repeat constructor.
    + pose proof (tryBlock_extract_follows_download (baseVersion version) w1)
        as H2.
      rewrite Htry2 in H2. cbn [snd] in H2.
      destruct r2 as [[]|e2]; rewrite Hshape; cbn [snd];
        repeat (apply extract_follows_download_app; try assumption);
        apply extract_follows_download_logs; repeat constructor.
Qed.

(** X7.  Along a whole call, fallback included, every [chmod] is
    [chmod(<__dirname>/../bin/chromedriver, 0o755)], is made on a platform
    other than [win32], and follows a successful extraction with only log
    lines in between. *)
Theorem permissions_over_a_whole_call version w :
  chmod_follows_extract (events_of (attemptAssetsDownload version w)) /\
  Forall (fun ev =>
            match ev with
            | Chmod file mode _ =>
                file = path_join [path_join [__dirname; ".."; "bin"];
                                  "chromedriver"] /\
                mode = 493%Z /\
                Js.or_else (npm_config_platform env) (platform process)
                <> "win32"
            | _ => True
            end)
         (events_of (attemptAssetsDownload version w)).
Proof.
  split; [apply attemptAssetsDownload_chmod_follows_extract|].
  apply (attemptAssetsDownload_Forall
           (fun _ ev =>
              match ev with
              | Chmod file mode _ =>
                  file = path_join [path_join [__dirname; ".."; "bin"];
                                    "chromedriver"] /\
                  mode = 493%Z /\
                  Js.or_else (npm_config_platform env) (platform process)
                  <> "win32"
              | _ => True
              end)).
  - intros v w0. apply Forall_lookup. intros i ev Hi.
    destruct ev as [| | | |file mode r]; try exact I.
    exact (tryBlock_chmod_args _ _ _ _ _ _ Hi).
  - intros v e. repeat constructor.
  - repeat constructor.
  - intros ev Hev. exact Hev.
Qed.

Lemma tryBlock_return_trace version w w1 tr1 :
  tryBlock version w = (Return tt, w1, tr1) ->
  exists conf zipPath,
    conf_version conf = version /\
    Download conf (Return zipPath) ∈ tr1 /\
    Extract zipPath (path_join [__dirname; ".."; "bin"]) (Return tt) ∈ tr1 /\
    (Js.or_else (npm_config_platform env) (platform process) <> "win32" ->
     Chmod (path_join [path_join [__dirname; ".."; "bin"]; "chromedriver"])
           493%Z (Return tt) ∈ tr1).
Proof.
  run_tryBlock; intros [= <- <-].
  all: eexists (mkConf version _ _ _ _ _), _; split; [reflexivity|].
  all: repeat split.
  all: try (intros Hne; exfalso; apply Hne; now apply String.eqb_eq).
  all: try intros _.
  all: repeat first [apply list_elem_of_here | apply list_elem_of_further].
Qed.

(** X8.  A call returns only after the version attempted last was
    downloaded and unpacked successfully and, off [win32], the driver was
    made executable. *)
Theorem returns_only_after_provisioning version w :
  result_of (attemptAssetsDownload version w) = Return tt ->
  exists v conf zipPath,
    last (attemptedVersions (events_of (attemptAssetsDownload version w)))
    = Some v /\
    conf_version conf = v /\
    Download conf (Return zipPath)
      ∈ events_of (attemptAssetsDownload version w) /\
    Extract zipPath (path_join [__dirname; ".."; "bin"]) (Return tt)
      ∈ events_of (attemptAssetsDownload version w) /\
    (Js.or_else (npm_config_platform env) (platform process) <> "win32" ->
     Chmod (path_join [path_join [__dirname; ".."; "bin"]; "chromedriver"])
           493%Z (Return tt)
       ∈ events_of (attemptAssetsDownload version w)).
Proof.
  destruct (attemptAssetsDownload_shape version w)
    as (r1 & w1 & tr1 & Htry1 & Hshape).
  destruct r1 as [[]|e].
  - intros _. rewrite Hshape. unfold events_of. cbn [snd].
    destruct (tryBlock_return_trace _ _ _ _ Htry1)
      as (conf & zipPath & Hv & Hd & He & Hc).
    exists version, conf, zipPath.
    split; [|exact (conj Hv (conj Hd (conj He Hc)))].
    rewrite (tryBlock_attemptedVersions_eq _ _ _ _ _ Htry1). reflexivity.
  - destruct Hshape as [[_ ->] | (_ & r2 & w2 & tr2 & Htry2 & Hshape)];
      [discriminate|].
    destruct r2 as [[]|e2]; rewrite Hshape; [intros _ | discriminate].
    unfold events_of. cbn [snd].
    destruct (tryBlock_return_trace _ _ _ _ Htry2)
      as (conf & zipPath & Hv & Hd & He & Hc).
    exists (baseVersion version), conf, zipPath. split.
    + rewrite (app_assoc tr1), <- (app_nil_r tr2).
      exact (tryBlock_last_attempted _ _ _ _ _ [] Htry2 eq_refl _).
    + assert (forall ev : Event,
                 ev ∈ tr2 -> ev ∈ (tr1 ++ fallbackLogs version ++ tr2)%list)
        as Hin by (intros ev Hev; rewrite !elem_of_app; right; right; exact Hev).
      split; [exact Hv|]. split; [exact (Hin _ Hd)|].
      split; [exact (Hin _ He)|]. intros Hne. exact (Hin _ (Hc Hne)).
Qed.

(** *** More on version resolution *)

Lemma Array_sort_singleton {A} (cmp : A -> A -> completion Exn Z) x :
  Array_sort cmp [x] = Return [x].
Proof. reflexivity. Qed.

(** With a comparator that rejects invalid versions, whichever argument
    they come as, sorting two or more records of which one is invalid
    throws. *)
Lemma Array_sort_invalid (invalid : string -> Prop) feed :
  (forall a b, invalid a \/ invalid b -> exists e, compareVersions a b = Throw e) ->
  (2 <= length feed)%nat ->
  Exists (fun r => invalid (version r)) feed ->
  exists e, Array_sort byVersion feed = Throw e.
Proof.
  intros Hcmp. induction feed as [|x l IH]; cbn; [lia|].
  intros Hlen Hex.
  destruct (Array_sort byVersion l) as [s|e] eqn:Hsort; [|eauto].
  assert (forall y s', s = y :: s' ->
                       invalid (version x) \/ invalid (version y) ->
                       exists e, insertSorted byVersion x s = Throw e) as Hhead.
  { intros y s' -> Hinv. cbn. unfold byVersion at 1.
    destruct (Hcmp _ _ Hinv) as [e ->]. eauto. }
  destruct l as [|z l']; [cbn in Hlen; lia|].
  apply Exists_cons in Hex as [Hx|Hl].
  - pose proof (Array_sort_Permutation _ _ _ Hsort) as Hperm.
    destruct s as [|y s'].
    + apply Permutation_nil_l in Hperm. discriminate Hperm.
    + apply (Hhead y s' eq_refl). now left.
  - destruct l' as [|z' l''].
    + rewrite Array_sort_singleton in Hsort. injection Hsort as <-.
      apply (Hhead z [] eq_refl). right.
      apply Exists_cons in Hl as [Hz|Hnil]; [exact Hz|].
      now apply Exists_nil in Hnil.
    + destruct (IH ltac:(cbn; lia) Hl) as [e He]. discriminate He.
Qed.

(** X9.  A feed of two or more records that holds a version the comparator
    rejects is treated like a failed fetch: the sort throws inside the
    [try] block and the result comes from [fullVersions]. *)
Theorem invalid_feed_version_falls_back_to_table
        (invalid : string -> Prop) electronVersion feed w body w1 w2 :
  (forall a b, invalid a \/ invalid b -> exists e, compareVersions a b = Throw e) ->
  (2 <= length feed)%nat ->
  Exists (fun r => invalid (version r)) feed ->
  fetch feedUrl w = (Return body, w1) ->
  json body w1 = (Return feed, w2) ->
  getChromiumVersion electronVersion w
  = (Return (plainGet fullVersions (propertyKey electronVersion)), w2,
     [Log debug [LStr "Updating Electron - Chromium version map..."];
      Fetch feedUrl;
      Log debug [LStr "Map update failed."]]).
Proof.
  intros Hcmp Hlen Hex Hf Hj.
  destruct (Array_sort_invalid invalid feed Hcmp Hlen Hex) as [e He].
  now rewrite getChromiumVersion_run, updateMap_run, Hf, Hj, He.
Qed.

Lemma foldl_fill_lookup (releases : list ElectronRelease)
      (m : gmap string string) (k : string) :
  foldl (fun m r => plainSet m (version r) (chrome r)) m releases !! k
  = if bool_decide (k = "__proto__") then m !! k
    else match last (filter (fun r => version r = k) releases) with
         | Some r => Some (chrome r)
         | None => m !! k
         end.
Proof.
  revert m. induction releases as [|r l IH]; intros m.
  - cbn. now destruct (bool_decide _).
  - cbn [foldl]. rewrite IH, filter_cons.
    destruct (bool_decide_reflect (k = "__proto__")) as [Hk|Hk].
    + unfold plainSet.
      destruct (bool_decide_reflect (version r = "__proto__")) as [_|Hr];
        [reflexivity | apply lookup_insert_ne; congruence].
    + destruct (decide (version r = k)) as [<-|Hne].
      * rewrite last_cons.
        destruct (last (filter _ l)); [reflexivity|].
        unfold plainSet. rewrite bool_decide_eq_false_2 by exact Hk.
        apply lookup_insert_eq.
      * destruct (last (filter _ l)); [reflexivity|].
        now apply plainSet_lookup_ne.
Qed.

Lemma insertSorted_on_feed (x : ElectronRelease) l :
  (forall b, b ∈ l ->
             exists c, byVersion x b = Return c /\
                       (version x = version b -> (c <= 0)%Z)) ->
  exists r,
    insertSorted byVersion x l = Return r /\
    Permutation r (x :: l) /\
    forall m : gmap string string,
      foldl (fun m r => plainSet m (version r) (chrome r)) m r
      = foldl (fun m r => plainSet m (version r) (chrome r)) m (x :: l).
Proof.
  induction l as [|y l IH]; intros Hcmp; cbn.
  - eexists. repeat split; reflexivity.
  - destruct (Hcmp y ltac:(now left)) as (c & -> & Hc).
    destruct (c <=? 0)%Z eqn:Hle; [eexists; repeat split; reflexivity|].
    destruct IH as (r & -> & Hperm & Hfill).
    { intros b Hb. apply Hcmp. now right. }
    eexists. split; [reflexivity|]. split.
    + rewrite Hperm. apply perm_swap.
    + intros m. cbn. rewrite Hfill. cbn. f_equal.
      apply plainSet_commute. intros Heq.
      apply Z.leb_gt in Hle. symmetry in Heq. specialize (Hc Heq). lia.
Qed.

Lemma Array_sort_on_feed feed :
  (forall a b, a ∈ feed -> b ∈ feed ->
               exists c, byVersion a b = Return c /\
                         (version a = version b -> (c <= 0)%Z)) ->
  exists sorted,
    Array_sort byVersion feed = Return sorted /\
    Permutation sorted feed /\
    fillVersionMap sorted = fillVersionMap feed.
Proof.
  unfold fillVersionMap. generalize (∅ : gmap string string).
  induction feed as [|x l IH]; intros m Hcmp; cbn.
  - eexists. repeat split; reflexivity.
  - destruct (IH (plainSet m (version x) (chrome x))) as (s & -> & Hperm & Hfill).
    { intros a b Ha Hb. apply Hcmp; now right. }
    destruct (insertSorted_on_feed x s) as (r & -> & Hperm' & Hfill').
    { intros b Hb. apply Hcmp; [now left|]. right. now rewrite <- Hperm. }
    eexists. split; [reflexivity|]. split.
    + rewrite Hperm'. now constructor.
    + rewrite Hfill'. cbn. exact Hfill.
Qed.

Lemma consistent_on_feed feed :
  consistent_on (map version feed) ->
  forall a b, a ∈ feed -> b ∈ feed ->
              exists c, byVersion a b = Return c /\
                        (version a = version b -> (c <= 0)%Z).
Proof.
  intros (cmp & Hret & Hrefl & _) a b Ha Hb.
  assert (version a ∈ map version feed) as Ha'
      by (apply list_elem_of_fmap; eauto).
  assert (version b ∈ map version feed) as Hb'
      by (apply list_elem_of_fmap; eauto).
  exists (cmp (version a) (version b)). split; [exact (Hret _ _ Ha' Hb')|].
  intros <-. rewrite (Hrefl _ Ha'). lia.
Qed.

(** X10.  When the comparator is consistent on the versions of the feed,
    the sort has no influence on the result.  For a requested version
    other than [__proto__] the result is the [chrome] of the last record
    of the feed, in feed order, that carries it; if there is none, it is
    the member of [Object.prototype] of that name, or [undefined] when
    there is no such member.  Records under [__proto__] are not stored,
    and that name reads as the prototype. *)
Theorem last_record_of_a_version_wins electronVersion feed w body w1 w2 :
  consistent_on (map version feed) ->
  fetch feedUrl w = (Return body, w1) ->
  json body w1 = (Return feed, w2) ->
  result_of (getChromiumVersion electronVersion w)
  = Return
      (if bool_decide (propertyKey electronVersion = "__proto__")
       then Inherited "__proto__"
       else
         match last (filter (fun r => version r = propertyKey electronVersion)
                            feed) with
         | Some r => Own (chrome r)
         | None =>
             if bool_decide (propertyKey electronVersion ∈ objectPrototypeKeys)
             then Inherited (propertyKey electronVersion)
             else Undefined
         end).
Proof.
  intros Hcmp Hf Hj.
  destruct (Array_sort_on_feed feed (consistent_on_feed feed Hcmp))
    as (sorted & Hsort & _ & Hfill).
  rewrite getChromiumVersion_run, updateMap_run, Hf, Hj, Hsort, Hfill.
  unfold result_of, fillVersionMap, plainGet. cbn [fst].
  rewrite foldl_fill_lookup, lookup_empty.
  destruct (bool_decide_reflect (propertyKey electronVersion = "__proto__"))
    as [->|Hk]; [reflexivity|].
  now destruct (last _).
Qed.

End Provisioner.

Arguments Log {Exn} level args.
Arguments Fetch {Exn} url.
Arguments Download {Exn} conf r.
Arguments Extract {Exn} zipPath dir r.
Arguments Chmod {Exn} file mode r.
Arguments LStr {Exn} s.
Arguments LConf {Exn} c.
Arguments LExn {Exn} e.
Arguments result_of {Exn World A} o.
Arguments events_of {Exn World A} o.
Arguments attemptedVersions {Exn} tr.
Arguments thrown_by {Exn} e ev.
Arguments is_log {Exn} ev.
Arguments no_chmod {Exn} tr.
Arguments chmod_follows_extract {Exn} tr.

(** ** Facts about the binary locator *)

Lemma includes_supported p :
  Js.includes (Js.Object_values SupportedPlatform) p = true
  <-> p ∈ ["darwin"; "linux"; "win32"].
Proof.
  unfold Js.includes. cbn. rewrite !orb_true_iff, !String.eqb_eq.
  rewrite !elem_of_cons, elem_of_nil. intuition discriminate.
Qed.

(** C4.  For a platform outside {darwin, linux, win32}, [getBinaryPath]
    throws an error whose message carries the platform and returns no
    path; for each of the three it returns a path. *)
Theorem unsupported_platform_is_an_error process distPath appName :
  (platform process ∉ ["darwin"; "linux"; "win32"] ->
   getBinaryPath process distPath appName
   = Throw (mkError ("Unsupported platform: " ++ platform process)) /\
   forall p, getBinaryPath process distPath appName <> Return p) /\
  (platform process ∈ ["darwin"; "linux"; "win32"] ->
   exists p, getBinaryPath process distPath appName = Return p).
Proof.
  unfold getBinaryPath. split; intros Hp.
  - destruct (Js.includes _ (platform process)) eqn:Hinc.
    + apply includes_supported in Hinc. contradiction.
    + cbn. split; [reflexivity | discriminate].
  - apply includes_supported in Hp. rewrite Hp. cbn. eauto.
Qed.

Lemma getBinaryPath_darwin arch distPath appName :
  getBinaryPath (mkProcess "darwin" arch) distPath appName
  = Return (distPath ++ "/"
              ++ (if String.eqb arch "arm64" then "mac-arm64" else "mac")
              ++ "/" ++ appName ++ ".app/Contents/MacOS/"
              ++ getMacExecutableName appName).
Proof. reflexivity. Qed.

(** C6.  On darwin the path is
    [<distPath>/<sub>/<appName>.app/Contents/MacOS/<executable>], where the
    subfolder [sub] is ["mac-arm64"] exactly when the architecture is
    ["arm64"] and ["mac"] exactly when it is anything else. *)
Theorem darwin_subfolder_by_arch arch distPath appName :
  exists sub,
    getBinaryPath (mkProcess "darwin" arch) distPath appName
    = Return (distPath ++ "/" ++ sub ++ "/" ++ appName
                ++ ".app/Contents/MacOS/" ++ getMacExecutableName appName) /\
    (sub = "mac-arm64" <-> arch = "arm64") /\
    (sub = "mac" <-> arch <> "arm64").
Proof.
  rewrite getBinaryPath_darwin.
  destruct (String.eqb arch "arm64") eqn:Harch.
  - apply String.eqb_eq in Harch. exists "mac-arm64".
    split; [reflexivity|]. split; split; try easy.
  - apply String.eqb_neq in Harch. exists "mac".
    split; [reflexivity|]. split; split; try easy.
Qed.

(** C5, on an application name in which [" Helper"] occurs before the
    trailing [" Helper"]: the bundle component keeps the full name, but
    the executable name loses the first occurrence, not the trailing
    one. *)
Theorem helper_suffix_removed_at_first_occurrence :
  Js.endsWith "A Helper B Helper" " Helper" = true /\
  getBinaryPath (mkProcess "darwin" "x64") "/dist" "A Helper B Helper"
  = Return "/dist/mac/A Helper B Helper.app/Contents/MacOS/A B Helper" /\
  getMacExecutableName "A Helper B Helper" = "A B Helper" /\
  spec_without_suffix "A Helper B Helper" " Helper" = "A Helper B" /\
  getMacExecutableName "A Helper B Helper"
  <> spec_without_suffix "A Helper B Helper" " Helper".
Proof. repeat split. discriminate. Qed.

Lemma getMacExecutableName_no_suffix appName :
  Js.endsWith appName " Helper" = false ->
  getMacExecutableName appName = appName.
Proof. unfold getMacExecutableName. now intros ->. Qed.

Lemma substring_none n s : substring n 0 s = "".
Proof.
  revert n. induction s as [|c s IH]; intros [|n]; cbn; try reflexivity.
  apply IH.
Qed.

Lemma append_empty (s : string) : s ++ "" = s.
Proof.
  induction s as [|c s IH]; [reflexivity|].
  change (String c (s ++ "") = String c s). now rewrite IH.
Qed.

(** X11.  Where the trailing [" Helper"] is the first occurrence, the code
    does remove the suffix. *)
Lemma getMacExecutableName_single_suffix appName :
  Js.endsWith appName " Helper" = true ->
  index 0 " Helper" appName = Some (String.length appName - 7)%nat ->
  getMacExecutableName appName = spec_without_suffix appName " Helper".
Proof.
  intros Hends Hidx. unfold getMacExecutableName, Js.replace, spec_without_suffix.
  rewrite Hends, Hidx.
  unfold Js.endsWith in Hends. apply andb_prop in Hends as [Hlen _].
  apply Nat.leb_le in Hlen. cbn [String.length] in *.
  replace (String.length appName - (String.length appName - 7 + 7))%nat
    with 0%nat by lia.
  rewrite substring_none. cbn. now rewrite append_empty.
Qed.

(** ** More on the executable name *)

Lemma append_cons c (s t : string) : String c s ++ t = String c (s ++ t).
Proof. reflexivity. Qed.

Lemma length_append (s t : string) :
  String.length (s ++ t) = (String.length s + String.length t)%nat.
Proof.
  induction s as [|c s IH]; [reflexivity|].
  rewrite append_cons. cbn [String.length]. now rewrite IH.
Qed.

Lemma substring_all (s : string) : substring 0 (String.length s) s = s.
Proof. induction s as [|c s IH]; cbn; [reflexivity | now rewrite IH]. Qed.

Lemma substring_add (n m k : nat) (s : string) :
  (n + m <= String.length s)%nat ->
  substring n (m + k) s = substring n m s ++ substring (n + m) k s.
Proof.
  revert n m. induction s as [|c s IH]; intros n m Hn; cbn in Hn.
  - assert (n = 0%nat) as -> by lia. assert (m = 0%nat) as -> by lia.
    reflexivity.
  - destruct n as [|n]; [destruct m as [|m]|].
    + reflexivity.
    + cbn [Nat.add substring]. rewrite append_cons. f_equal.
      apply (IH 0%nat m). lia.
    + cbn [Nat.add substring]. apply IH. lia.
Qed.

Lemma substring_split3 (n m : nat) (s : string) :
  (n + m <= String.length s)%nat ->
  s = substring 0 n s ++ substring n m s
        ++ substring (n + m) (String.length s - (n + m)) s.
Proof.
  intros Hn.
  rewrite <- (substring_all s) at 1.
  replace (String.length s)
    with (n + (m + (String.length s - (n + m))))%nat at 1 by lia.
  rewrite (substring_add 0 n) by (cbn; lia). cbn [Nat.add].
  now rewrite (substring_add n m) by lia.
Qed.

Lemma length_substring_le (n m : nat) (s : string) :
  (String.length (substring n m s) <= String.length s - n)%nat.
Proof.
  revert n m. induction s as [|c s IH]; intros [|n] [|m]; cbn; try lia.
  - specialize (IH 0%nat m). lia.
  - apply IH.
  - apply IH.
Qed.

Lemma length_substring_0 (n : nat) (s : string) :
  (n <= String.length s)%nat -> String.length (substring 0 n s) = n.
Proof.
  revert n. induction s as [|c s IH]; intros [|n] Hn; cbn in Hn |- *;
    try reflexivity; try lia.
  rewrite IH; lia.
Qed.

(** X12.  For a name that ends with [" Helper"], the executable name is
    the name with one occurrence of [" Helper"] taken out, the leftmost
    one: it is seven characters shorter, and no occurrence starts further
    left. *)
Theorem getMacExecutableName_removes_leftmost appName :
  Js.endsWith appName " Helper" = true ->
  exists pre post,
    appName = pre ++ " Helper" ++ post /\
    getMacExecutableName appName = pre ++ post /\
    (forall p, (p < String.length pre)%nat ->
               substring p 7 appName <> " Helper") /\
    (String.length (getMacExecutableName appName) + 7
     = String.length appName)%nat.
Proof.
  intros Hends. unfold getMacExecutableName, Js.replace. rewrite Hends.
  unfold Js.endsWith in Hends. apply andb_prop in Hends as [Hlen Hsuffix].
  apply Nat.leb_le in Hlen. apply String.eqb_eq in Hsuffix.
  cbn [String.length] in *.
  destruct (index 0 " Helper" appName) as [pos|] eqn:Hidx.
  - pose proof (index_correct1 _ _ _ _ Hidx) as Hat. cbn [String.length] in Hat.
    assert (pos + 7 <= String.length appName)%nat as Hpos.
    { pose proof (length_substring_le pos 7 appName) as Hle.
      rewrite Hat in Hle. cbn in Hle. lia. }
    pose proof (substring_split3 pos 7 appName Hpos) as Hsplit.
    rewrite Hat in Hsplit.
    exists (substring 0 pos appName),
      (substring (pos + 7) (String.length appName - (pos + 7)) appName).
    split; [exact Hsplit|]. split; [reflexivity|]. split.
    + intros p Hp. rewrite length_substring_0 in Hp by lia.
      apply (index_correct2 _ _ _ _ Hidx); [lia | exact Hp].
    + pose proof (f_equal String.length Hsplit) as Hlength.
      rewrite !length_append in Hlength. cbn [String.length] in Hlength.
      change (?a ++ "" ++ ?b) with (a ++ b).
      rewrite length_append. lia.
  - exfalso.
    apply (index_correct3 0 (String.length appName - 7) _ _ Hidx);
      [discriminate | lia | exact Hsuffix].
Qed.

(** ** Facts about the fallback version *)

(** [join] after [split] gives the string back. *)
Lemma concat_split sep s :
  String.concat (String sep "") (Js.split sep s) = s.
Proof.
  induction s as [|c rest IH]; [reflexivity|].
  cbn [Js.split]. pose proof (split_not_nil sep rest) as Hnil.
  destruct (Ascii.eqb c sep) eqn:Hc.
  - apply Ascii.eqb_eq in Hc as ->.
    destruct (Js.split sep rest) as [|seg segs]; [contradiction|].
    cbn [String.concat] in *. now rewrite IH.
  - destruct (Js.split sep rest) as [|seg segs]; [contradiction|].
    destruct segs as [|seg' segs]; cbn [String.concat] in *.
    + now rewrite IH.
    + rewrite append_cons. now rewrite IH.
Qed.

Lemma split_baseVersion version :
  Js.split "." (baseVersion version)
  = [Js.template (Js.split "." version !! 0%nat);
     Js.template (Js.split "." version !! 1%nat); "0"].
Proof.
  unfold baseVersion.
  set (parts := Js.split "." version).
  pose proof (split_segments_free "." version) as Hall. fold parts in Hall.
  pose proof (template_lookup_free "." parts 0 eq_refl Hall) as H0.
  pose proof (template_lookup_free "." parts 1 eq_refl Hall) as H1.
  set (p0 := Js.template (parts !! 0%nat)) in *.
  set (p1 := Js.template (parts !! 1%nat)) in *.
  change (p0 ++ "." ++ p1 ++ ".0") with (p0 ++ String "." (p1 ++ String "." "0")).
  now rewrite (split_app_sep "." p0 _ H0), (split_app_sep "." p1 _ H1).
Qed.

(** X1.  For a major and a minor segment without dots, the fallback of
    [major.minor.rest] is [major.minor.0] whatever [rest] is (a patch, a
    patch with further segments, nothing); so is the fallback of
    [major.minor]; and a version without any dot falls back to
    [major.undefined.0]. *)
Theorem baseVersion_of_segments major minor rest :
  free_of "." major = true ->
  free_of "." minor = true ->
  baseVersion (major ++ "." ++ minor ++ "." ++ rest)
  = major ++ "." ++ minor ++ ".0" /\
  baseVersion (major ++ "." ++ minor) = major ++ "." ++ minor ++ ".0" /\
  baseVersion major = major ++ ".undefined.0".
Proof.
  intros Hmajor Hminor. unfold baseVersion. repeat split.
  - change (major ++ "." ++ minor ++ "." ++ rest)
      with (major ++ String "." (minor ++ String "." rest)).
    rewrite (split_app_sep "." major _ Hmajor), (split_app_sep "." minor _ Hminor).
    reflexivity.
  - change (major ++ "." ++ minor) with (major ++ String "." minor).
    rewrite (split_app_sep "." major _ Hmajor), (split_free "." minor Hminor).
    reflexivity.
  - rewrite (split_free "." major Hmajor). reflexivity.
Qed.

(** X2.  A version is its own fallback, so that a failed attempt for it is
    final, exactly when it has three dot-separated segments of which the
    third is [0]. *)
Theorem own_fallback_iff_three_segments version :
  baseVersion version = version
  <-> exists major minor, Js.split "." version = [major; minor; "0"].
Proof.
  split.
  - intros Hbase. rewrite <- Hbase, split_baseVersion. eauto.
  - intros (major & minor & Hsplit).
    rewrite <- (concat_split "." version) at 2.
    unfold baseVersion. rewrite Hsplit. reflexivity.
Qed.

(** ** Facts about capability discovery *)

Lemma and_then_Return {E A B} (c : completion E A) (k : A -> completion E B) b :
  and_then c k = Return b -> exists a, c = Return a /\ k a = Return b.
Proof. destruct c as [a|e]; cbn; [eauto | discriminate]. Qed.

Lemma Array_filter_Return {E A} (f : A -> completion E bool) xs l :
  Array_filter f xs = Return l ->
  Forall (fun x => f x = Return true) l /\ sublist l xs.
Proof.
  revert l. induction xs as [|x xs IH]; intros l; cbn.
  - intros [= <-]. split; constructor.
  - intros (keep & Hx & H)%and_then_Return.
    apply and_then_Return in H as (ys & Hys & [= <-]).
    destruct (IH _ Hys) as [Hall Hsub].
    destruct keep; split; try (constructor; assumption).
    + exact Hall.
Qed.

Lemma Array_map_Return {E A B} (f : A -> completion E B) xs ys :
  Array_map f xs = Return ys -> Forall2 (fun x y => f x = Return y) xs ys.
Proof.
  revert ys. induction xs as [|x xs IH]; intros ys; cbn.
  - intros [= <-]. constructor.
  - intros (y & Hx & H)%and_then_Return.
    apply and_then_Return in H as (ys' & Hys & [= <-]).
    constructor; [exact Hx | exact (IH _ Hys)].
Qed.

Lemma getElectronCapabilities_cases caps l :
  getElectronCapabilities caps = Return l ->
  (l = [caps] /\ isElectron caps = Return true) \/
  (exists w3cCaps,
      getProp caps "alwaysMatch" = Return w3cCaps /\
      l = [w3cCaps] /\ isElectron w3cCaps = Return true) \/
  (exists candidates,
      Array_map instanceCapability (objectValues caps) = Return candidates /\
      Array_filter isElectron candidates = Return l).
Proof.
  unfold getElectronCapabilities.
  intros (browserName & _ & H)%and_then_Return.
  apply and_then_Return in H as (standard & Hstd & H).
  destruct standard.
  { injection H as <-. left. split; [reflexivity|].
    destruct (isString browserName); [exact Hstd | discriminate]. }
  apply and_then_Return in H as (w3cCaps & Hw3c & H).
  apply and_then_Return in H as (w3c & Hw & H).
  destruct w3c.
  { injection H as <-. right. left. exists w3cCaps.
    split; [exact Hw3c|]. split; [reflexivity|].
    destruct (truthy w3cCaps); [|discriminate].
    apply and_then_Return in Hw as (browserName' & _ & Hw).
    destruct (isString browserName'); [exact Hw | discriminate]. }
  apply and_then_Return in H as (candidates & Hmap & Hfilter).
  right. right. exists candidates. split; assumption.
Qed.

(** X13.  Whatever [getElectronCapabilities] returns, for any of the three
    shapes, is a list of capabilities whose [browserName] is [electron]
    up to letter case. *)
Theorem discovered_capabilities_are_electron caps l :
  getElectronCapabilities caps = Return l ->
  Forall (fun cap =>
            exists s, getProp cap "browserName" = Return (JStr s) /\
                      toLowerCase s = "electron") l.
Proof.
  assert (forall cap, isElectron cap = Return true ->
                      exists s, getProp cap "browserName" = Return (JStr s) /\
                                toLowerCase s = "electron") as Helectron.
  { intros cap. unfold isElectron.
    destruct cap; try discriminate; cbn;
      try (destruct (default JUndefined _) eqn:Hb; try discriminate;
           intros [= Heq]; apply String.eqb_eq in Heq; eauto). }
  intros [[-> H] | [(w3cCaps & _ & -> & H) | (candidates & _ & H)]]%getElectronCapabilities_cases.
  - repeat constructor. exact (Helectron _ H).
  - repeat constructor. exact (Helectron _ H).
  - apply Array_filter_Return in H as [Hall _].
    eapply Forall_impl; [exact Hall | exact Helectron].
Qed.

(** X14.  [getElectronCapabilities] makes up no capability: each one it
    returns is the argument itself, its [alwaysMatch], or, for an instance
    among the values of the argument, the instance's [capabilities] or the
    [alwaysMatch] of those; and it returns at most one per instance. *)
Theorem discovered_capabilities_come_from_the_input caps l :
  getElectronCapabilities caps = Return l ->
  Forall (fun cap =>
            cap = caps \/
            getProp caps "alwaysMatch" = Return cap \/
            exists options capabilities,
              options ∈ objectValues caps /\
              getProp options "capabilities" = Return capabilities /\
              (cap = capabilities \/
               getProp capabilities "alwaysMatch" = Return cap)) l /\
  (length l <= Nat.max 1 (length (objectValues caps)))%nat.
Proof.
  intros [[-> H] | [(w3cCaps & Hw & -> & H) | (candidates & Hmap & H)]]%getElectronCapabilities_cases.
  - split; [constructor; [now left | constructor] | cbn; lia].
  - split; [constructor; [right; now left | constructor] | cbn; lia].
  - apply Array_filter_Return in H as [_ Hsub].
    apply Array_map_Return in Hmap.
    split.
    + apply Forall_forall. intros cap Hcap.
      assert (cap ∈ candidates) as Hin
          by (eapply elem_of_submseteq; [exact Hcap | now apply sublist_submseteq]).
      apply list_elem_of_lookup in Hin as [i Hi].
      destruct (Forall2_lookup_r _ _ _ _ _ Hmap Hi) as (options & Ho & Hinst).
      right. right. unfold instanceCapability in Hinst.
      apply and_then_Return in Hinst as (capabilities & Hc & Hinst).
      apply and_then_Return in Hinst as (alwaysMatch & Ha & [= <-]).
      exists options, capabilities.
      split; [eapply list_elem_of_lookup_2; eassumption|].
      split; [exact Hc|]. unfold js_or.
      destruct (truthy alwaysMatch); [now right | now left].
    + apply sublist_length in Hsub. apply Forall2_length in Hmap. lia.
Qed.

Lemma lookupOwn_values props name v :
  lookupOwn props name = Some v -> v ∈ map snd props.
Proof.
  induction props as [|[k v'] props IH]; cbn; [discriminate|].
  destruct (String.eqb k name).
  - intros [= ->]. now left.
  - intros H. right. exact (IH H).
Qed.

Lemma Array_map_TypeError {A B} (f : A -> completion Thrown B) xs x :
  (forall y e, f y = Throw e -> e = TypeError) ->
  x ∈ xs -> f x = Throw TypeError ->
  Array_map f xs = Throw TypeError.
Proof.
  intros Honly Hin Hx. induction xs as [|y xs IH]; cbn.
  - now apply elem_of_nil in Hin.
  - destruct (f y) as [b|e] eqn:Hy; cbn.
    + apply elem_of_cons in Hin as [->|Hin]; [congruence|].
      now rewrite (IH Hin).
    + now rewrite (Honly _ _ Hy).
Qed.

Lemma instanceCapability_throws options e :
  instanceCapability options = Throw e -> e = TypeError.
Proof.
  unfold instanceCapability.
  destruct options; cbn; try (intros [= <-]; reflexivity);
    try discriminate.
  destruct (default JUndefined _); cbn; congruence.
Qed.

(** X15.  A plain capability object whose [browserName] is a string other
    than [electron], and which has no [alwaysMatch], is taken for a
    multiremote object: the browser name itself is looked at as an
    instance, and reading [capabilities.alwaysMatch] of it is a
    [TypeError]. *)
Theorem plain_capability_of_another_browser_throws props s :
  lookupOwn props "browserName" = Some (JStr s) ->
  toLowerCase s <> "electron" ->
  truthy (default JUndefined (lookupOwn props "alwaysMatch")) = false ->
  getElectronCapabilities (JObj props) = Throw TypeError.
Proof.
  intros Hname Hother Hw3c. unfold getElectronCapabilities. cbn.
  rewrite Hname. cbn. apply String.eqb_neq in Hother. rewrite Hother, Hw3c. cbn.
  rewrite (Array_map_TypeError instanceCapability _ (JStr s)).
  - reflexivity.
  - exact instanceCapability_throws.
  - unfold objectValues. cbn. exact (lookupOwn_values _ _ _ Hname).
  - reflexivity.
Qed.

(** X16.  A capability object with an [electron] browser name, in any
    letter case, is returned whole and alone, whatever else it holds; a
    W3C object without a [browserName] of its own whose [alwaysMatch] is
    such an object is answered with that [alwaysMatch] alone. *)
Theorem standard_and_w3c_shapes props s :
  toLowerCase s = "electron" ->
  (lookupOwn props "browserName" = Some (JStr s) ->
   getElectronCapabilities (JObj props) = Return [JObj props]) /\
  (forall alwaysMatch,
      lookupOwn props "browserName" = None ->
      lookupOwn props "alwaysMatch" = Some (JObj alwaysMatch) ->
      lookupOwn alwaysMatch "browserName" = Some (JStr s) ->
      getElectronCapabilities (JObj props) = Return [JObj alwaysMatch]).
Proof.
  intros Hs. apply String.eqb_eq in Hs. split.
  - intros Hname. unfold getElectronCapabilities. cbn.
    rewrite Hname. cbn. now rewrite Hs.
  - intros alwaysMatch Hnone Hw3c Hname. unfold getElectronCapabilities. cbn.
    rewrite Hnone, Hw3c. cbn. rewrite Hname. cbn. now rewrite Hs.
Qed.

Lemma Array_map_all {E A B} (f : A -> completion E B) xs ys :
  Forall2 (fun x y => f x = Return y) xs ys -> Array_map f xs = Return ys.
Proof.
  induction 1 as [|x y xs ys Hx _ IH]; cbn; [reflexivity|].
  now rewrite Hx, IH.
Qed.

Lemma Array_filter_all {E A} (f : A -> completion E bool) (g : A -> bool) xs :
  Forall (fun x => f x = Return (g x)) xs ->
  Array_filter f xs = Return (List.filter g xs).
Proof.
  induction 1 as [|x xs Hx _ IH]; cbn; [reflexivity|].
  now rewrite Hx, IH.
Qed.

(** X17.  For a multiremote object (no [browserName] and no [alwaysMatch]
    of its own) whose instances hold plain capabilities that name a
    browser, the result is the capabilities of the Electron instances, in
    the order of the instances. *)
Theorem multiremote_selects_electron_instances instances capabilities :
  lookupOwn instances "browserName" = None ->
  lookupOwn instances "alwaysMatch" = None ->
  Forall2 plainInstance (map snd instances) capabilities ->
  getElectronCapabilities (JObj instances)
  = Return (List.filter hasElectronName capabilities).
Proof.
  intros Hname Hw3c Hinst. unfold getElectronCapabilities. cbn.
  rewrite Hname, Hw3c. cbn. unfold objectValues. cbn.
  rewrite (Array_map_all instanceCapability _ capabilities).
  - cbn. apply Array_filter_all.
    apply (Forall2_Forall_r _ _ _ _ Hinst).
    apply Forall_forall.
    intros o _ c (o' & c' & s & -> & -> & _ & _ & Hn).
    unfold isElectron, hasElectronName. cbn. now rewrite Hn.
  - eapply Forall2_impl; [exact Hinst|].
    intros o c (o' & c' & s & -> & -> & Hc & Ha & _).
    unfold instanceCapability. cbn. rewrite Hc. cbn. now rewrite Ha.
Qed.

(** ** Facts about the launch options *)

Lemma spreadInto_lookup props (m : gmap string JsValue) k :
  spreadInto props m !! k
  = match lookupOwn props k with
    | Some v => Some v
    | None => m !! k
    end.
Proof.
  induction props as [|[k' v] props IH]; cbn; [reflexivity|].
  destruct (String.eqb k' k) eqn:Hk.
  - apply String.eqb_eq in Hk as ->. apply lookup_insert_eq.
  - apply String.eqb_neq in Hk. rewrite lookup_insert_ne by exact Hk. exact IH.
Qed.

Lemma getChromeOptions_Return process options cap m :
  getChromeOptions process options cap = Return m ->
  exists chromeOptions binary existingArgs args,
    getProp cap "goog:chromeOptions" = Return chromeOptions /\
    binaryOption process options = Return binary /\
    getProp (js_or chromeOptions (JObj [])) "args" = Return existingArgs /\
    iterate (js_or existingArgs (JArr [])) = Return args /\
    m = <["args" := JArr (args ++ match appArgs options with
                                  | Some l => map JStr l
                                  | None => []
                                  end)%list]>
          (spreadInto (ownProps (js_or chromeOptions (JObj [])))
             (<["windowTypes" := JArr [JStr "app"; JStr "webview"]]>
                (<["binary" := JStr binary]> ∅))).
Proof.
  unfold getChromeOptions.
  intros (chromeOptions & Hc & H)%and_then_Return.
  apply and_then_Return in H as (binary & Hb & H).
  apply and_then_Return in H as (existingArgs & He & H).
  apply and_then_Return in H as (args & Ha & [= <-]).
  exists chromeOptions, binary, existingArgs, args. auto.
Qed.

(** X18.  The [args] of the launch options are the [args] of the
    capability's own [goog:chromeOptions] followed by [appArgs], each taken
    as empty when absent; none is dropped or reordered. *)
Theorem launch_args_are_existing_then_app process options cap m :
  getChromeOptions process options cap = Return m ->
  (forall props existing,
      getProp cap "goog:chromeOptions" = Return (JObj props) ->
      lookupOwn props "args" = Some (JArr existing) ->
      m !! "args"
      = Some (JArr (existing ++ map JStr (default [] (appArgs options))))) /\
  (forall props,
      getProp cap "goog:chromeOptions" = Return (JObj props) ->
      lookupOwn props "args" = None ->
      m !! "args" = Some (JArr (map JStr (default [] (appArgs options))))) /\
  (getProp cap "goog:chromeOptions" = Return JUndefined ->
   m !! "args" = Some (JArr (map JStr (default [] (appArgs options))))).
Proof.
  intros (chromeOptions & binary & existingArgs & args & Hc & _ & He & Ha & ->)
         %getChromeOptions_Return.
  rewrite lookup_insert_eq.
  assert (match appArgs options with
          | Some l => map JStr l
          | None => []
          end = map JStr (default [] (appArgs options))) as ->
      by (destruct (appArgs options); reflexivity).
  repeat split.
  - intros props existing Hc' Hargs. rewrite Hc in Hc'. injection Hc' as ->.
    cbn in He. rewrite Hargs in He. injection He as <-.
    cbn in Ha. now injection Ha as <-.
  - intros props Hc' Hargs. rewrite Hc in Hc'. injection Hc' as ->.
    cbn in He. rewrite Hargs in He. injection He as <-.
    cbn in Ha. now injection Ha as <-.
  - intros Hc'. rewrite Hc in Hc'. injection Hc' as ->.
    cbn in He. injection He as <-. cbn in Ha. now injection Ha as <-.
Qed.

(** X19.  Every property of the capability's own [goog:chromeOptions]
    other than [args] comes out unchanged, [binary] and [windowTypes]
    included: what the caller set wins over what is computed.  The result
    has no property besides those, [binary], [windowTypes] and [args]. *)
Theorem existing_chrome_options_win process options cap m chromeOptions :
  getChromeOptions process options cap = Return m ->
  getProp cap "goog:chromeOptions" = Return chromeOptions ->
  (forall k v,
      k <> "args" ->
      lookupOwn (ownProps (js_or chromeOptions (JObj []))) k = Some v ->
      m !! k = Some v) /\
  (forall k,
      is_Some (m !! k) ->
      k = "args" \/ k = "binary" \/ k = "windowTypes" \/
      is_Some (lookupOwn (ownProps (js_or chromeOptions (JObj []))) k)).
Proof.
  intros (chromeOptions' & binary & existingArgs & args & Hc & _ & _ & _ & ->)
         %getChromeOptions_Return Hc'.
  rewrite Hc in Hc'. injection Hc' as ->. split.
  - intros k v Hk Hown.
    rewrite lookup_insert_ne by congruence.
    now rewrite spreadInto_lookup, Hown.
  - intros k Hsome.
    destruct (decide (k = "args")) as [->|Hargs]; [now left|].
    rewrite lookup_insert_ne in Hsome by congruence.
    rewrite spreadInto_lookup in Hsome.
    destruct (lookupOwn _ k) as [v|] eqn:Hown; [do 3 right; eauto|].
    destruct (decide (k = "windowTypes")) as [->|Hwin]; [auto|].
    rewrite lookup_insert_ne in Hsome by congruence.
    destruct (decide (k = "binary")) as [->|Hbin]; [auto|].
    rewrite lookup_insert_ne, lookup_empty in Hsome by congruence.
    now destruct Hsome.
Qed.

(** X20.  Where the capability's own [goog:chromeOptions] set no [binary],
    the [binary] of the result is the non-empty [binaryPath] of the
    service options or else the path [getBinaryPath] computes; where they
    set no [windowTypes], it is [['app', 'webview']]. *)
Theorem launch_option_defaults process options cap m chromeOptions :
  getChromeOptions process options cap = Return m ->
  getProp cap "goog:chromeOptions" = Return chromeOptions ->
  (lookupOwn (ownProps (js_or chromeOptions (JObj []))) "binary" = None ->
   (forall path, binaryPath options = Some path -> path <> "" ->
                 m !! "binary" = Some (JStr path)) /\
   (binaryPath options = None \/ binaryPath options = Some "" ->
    exists name electronPath,
      appName options = Some name /\
      getBinaryPath process (Js.template (appPath options)) name
      = Return electronPath /\
      m !! "binary" = Some (JStr electronPath))) /\
  (lookupOwn (ownProps (js_or chromeOptions (JObj []))) "windowTypes" = None ->
   m !! "windowTypes" = Some (JArr [JStr "app"; JStr "webview"])).
Proof.
  intros (chromeOptions' & binary & existingArgs & args & Hc & Hb & _ & _ & ->)
         %getChromeOptions_Return Hc'.
  rewrite Hc in Hc'. injection Hc' as ->. split.
  - intros Hown.
    assert (forall b : string,
               binary = b ->
               (<["args" := JArr (args ++ match appArgs options with
                                          | Some l => map JStr l
                                          | None => []
                                          end)%list]>
                  (spreadInto (ownProps (js_or chromeOptions (JObj [])))
                     (<["windowTypes" := JArr [JStr "app"; JStr "webview"]]>
                        (<["binary" := JStr binary]> ∅)))) !! "binary"
               = Some (JStr b)) as Hlookup.
    { intros b ->. rewrite lookup_insert_ne by discriminate.
      rewrite spreadInto_lookup, Hown.
      rewrite lookup_insert_ne by discriminate. apply lookup_insert_eq. }
    unfold binaryOption in Hb. split.
    + intros path Hpath Hne. rewrite Hpath in Hb.
      apply String.eqb_neq in Hne. rewrite Hne in Hb.
      injection Hb as <-. now apply Hlookup.
    + intros Hnone.
      assert (getBinaryPath_call process (appPath options) (appName options)
              = Return binary) as Hcall
          by (destruct Hnone as [Hn|Hn]; rewrite Hn in Hb; exact Hb).
      unfold getBinaryPath_call in Hcall.
      destruct (negb _); [discriminate|].
      destruct (appName options) as [name|]; [|discriminate].
      destruct (getBinaryPath _ _ name) as [electronPath|e] eqn:Hpath;
        [|discriminate].
      injection Hcall as <-. exists name, electronPath.
      split; [reflexivity|]. split; [exact Hpath|]. now apply Hlookup.
  - intros Hown. rewrite lookup_insert_ne by discriminate.
    rewrite spreadInto_lookup, Hown. apply lookup_insert_eq.
Qed.

(** X21.  Without a non-empty [binaryPath], an unsupported platform makes
    [getChromeOptions] throw the error of [getBinaryPath] whatever the
    capability's own options are, a [binary] of their own included; with
    a non-empty [binaryPath] the platform is never looked at. *)
Theorem platform_error_despite_own_binary process options cap chromeOptions :
  getProp cap "goog:chromeOptions" = Return chromeOptions ->
  (binaryPath options = None \/ binaryPath options = Some "" ->
   platform process ∉ ["darwin"; "linux"; "win32"] ->
   getChromeOptions process options cap
   = Throw (ThrownError
              (mkError ("Unsupported platform: " ++ platform process)))) /\
  (forall path, binaryPath options = Some path -> path <> "" ->
                binaryOption process options = Return path).
Proof.
  intros Hc. split.
  - intros Hnone Hplatform. unfold getChromeOptions. rewrite Hc. cbn.
    assert (binaryOption process options
            = getBinaryPath_call process (appPath options) (appName options))
      as -> by (unfold binaryOption; destruct Hnone as [-> | ->]; reflexivity).
    unfold getBinaryPath_call.
    destruct (Js.includes _ (platform process)) eqn:Hinc.
    + apply includes_supported in Hinc. contradiction.
    + reflexivity.
  - intros path Hpath Hne. unfold binaryOption. rewrite Hpath.
    apply String.eqb_neq in Hne. now rewrite Hne.
Qed.

(** X22.  Without a non-empty [binaryPath] and without an [appName],
    [getChromeOptions] throws a [TypeError] on each of the three supported
    platforms, not only on darwin: the [darwin] entry of [pathMap], which
    calls [getMacExecutableName], is computed on all of them. *)
Theorem missing_appName_is_a_TypeError process options cap chromeOptions :
  getProp cap "goog:chromeOptions" = Return chromeOptions ->
  binaryPath options = None \/ binaryPath options = Some "" ->
  appName options = None ->
  platform process ∈ ["darwin"; "linux"; "win32"] ->
  getChromeOptions process options cap = Throw TypeError.
Proof.
  intros Hc Hnone Hname Hplatform. unfold getChromeOptions. rewrite Hc. cbn.
  assert (binaryOption process options
          = getBinaryPath_call process (appPath options) (appName options))
    as -> by (unfold binaryOption; destruct Hnone as [-> | ->]; reflexivity).
  unfold getBinaryPath_call.
  apply includes_supported in Hplatform. rewrite Hplatform, Hname. reflexivity.
Qed.

(** ** The definitions at work *)

Abbreviation run_attempt := (fun process available =>
  attemptAssetsDownload string nat Scenario.env process "/pkg"
    Scenario.path_join (Scenario.downloadArtifact available)
    Scenario.extractZip Scenario.fs_chmod) (only parsing).

Abbreviation run_tryBlock := (fun process available =>
  tryBlock string nat Scenario.env process "/pkg"
    Scenario.path_join (Scenario.downloadArtifact available)
    Scenario.extractZip Scenario.fs_chmod) (only parsing).

Abbreviation run_getChromiumVersion := (fun online feed =>
  getChromiumVersion string nat string (Scenario.fetch online)
    (Scenario.json feed) Scenario.compareVersions Scenario.fullVersions)
  (only parsing).

Example string_methods :
  Js.split "." "10.1.5" = ["10"; "1"; "5"] /\
  Js.split "." "" = [""] /\
  Js.split "." "26." = ["26"; ""] /\
  Js.replace "abcabc" "bc" "" = "aabc" /\
  Js.replace "abc" "x" "" = "abc" /\
  Js.endsWith "My App Helper" " Helper" = true /\
  Js.endsWith "Helper" " Helper" = false.
Proof. repeat split. Qed.

Example baseVersion_values :
  baseVersion "10.1.5" = "10.1.0" /\
  baseVersion "10.1.0" = "10.1.0" /\
  baseVersion "26" = "26.undefined.0" /\
  baseVersion "" = ".undefined.0" /\
  baseVersion "1.2.3.4" = "1.2.0".
Proof. repeat split. Qed.

Example getBinaryPath_values :
  getBinaryPath (mkProcess "darwin" "arm64") "/dist" "My App Helper"
  = Return "/dist/mac-arm64/My App Helper.app/Contents/MacOS/My App" /\
  getBinaryPath (mkProcess "darwin" "x64") "/dist" "My App"
  = Return "/dist/mac/My App.app/Contents/MacOS/My App" /\
  getBinaryPath (mkProcess "linux" "x64") "/dist" "My App"
  = Return "/dist/linux-unpacked/My App" /\
  getBinaryPath (mkProcess "win32" "x64") "/dist" "My App"
  = Return "/dist/win-unpacked/My App.exe".
Proof. repeat split. Qed.

Example attempt_exact_version_available :
  result_of (run_attempt Scenario.linux ["10.1.5"] "10.1.5" 0%nat) = Return tt /\
  attemptedVersions (events_of (run_attempt Scenario.linux ["10.1.5"] "10.1.5" 0%nat))
  = ["10.1.5"].
Proof. split; reflexivity. Qed.

Example attempt_fallback_available :
  result_of (run_attempt Scenario.linux ["10.1.0"] "10.1.5" 0%nat) = Return tt /\
  attemptedVersions (events_of (run_attempt Scenario.linux ["10.1.0"] "10.1.5" 0%nat))
  = ["10.1.5"; "10.1.0"].
Proof. split; reflexivity. Qed.

Example attempt_nothing_available :
  result_of (run_attempt Scenario.linux [] "10.1.5" 0%nat)
  = Throw "HTTP 404: v10.1.0".
Proof. reflexivity. Qed.

Example attempt_empty_version :
  result_of (run_attempt Scenario.linux [] "" 0%nat)
  = Throw "HTTP 404: v.undefined.0" /\
  attemptedVersions (events_of (run_attempt Scenario.linux [] "" 0%nat))
  = [""; ".undefined.0"].
Proof. split; reflexivity. Qed.

Example resolve_from_feed :
  result_of (run_getChromiumVersion true (Some Scenario.feed) (Some "26.0.0") 0%nat)
  = Return (Own "116.0.5845.0").
Proof. reflexivity. Qed.

Example resolve_offline :
  result_of (run_getChromiumVersion false None (Some "26.0.0") 0%nat)
  = Return (Own "116.0.5845.62").
Proof. reflexivity. Qed.

Example resolve_unknown_version :
  result_of (run_getChromiumVersion true (Some Scenario.feed) (Some "1.2.3") 0%nat)
  = Return Undefined /\
  result_of (run_getChromiumVersion true (Some Scenario.feed) None 0%nat)
  = Return Undefined.
Proof. split; reflexivity. Qed.

Example resolve_prototype_names :
  result_of (run_getChromiumVersion true (Some Scenario.feed) (Some "constructor") 0%nat)
  = Return (Inherited "constructor") /\
  result_of (run_getChromiumVersion false None (Some "toString") 0%nat)
  = Return (Inherited "toString") /\
  result_of (run_getChromiumVersion true
               (Some [mkRelease "116.0.5845.0" "__proto__";
                      mkRelease "85.0.4183.121" "constructor"])
               (Some "__proto__") 0%nat)
  = Return (Inherited "__proto__") /\
  result_of (run_getChromiumVersion true
               (Some [mkRelease "85.0.4183.121" "constructor"])
               (Some "constructor") 0%nat)
  = Return (Own "85.0.4183.121").
Proof. repeat split. Qed.

(** ** The theorems at concrete inputs *)

Lemma fallback_retries_once_with_base_witness :
  baseVersion "10.1.5" <> "10.1.5" /\
  result_of (run_tryBlock Scenario.linux [] "10.1.5" 0%nat)
  = Throw "HTTP 404: v10.1.5" /\
  result_of (run_attempt Scenario.linux [] "10.1.5" 0%nat)
  = Throw "HTTP 404: v10.1.0" /\
  attemptedVersions (events_of (run_attempt Scenario.linux [] "10.1.5" 0%nat))
  = ["10.1.5"; "10.1.0"].
Proof.
  assert (baseVersion "10.1.5" <> "10.1.5") as Hne by (vm_compute; discriminate).
  split; [exact Hne|]. split; [reflexivity|].
  destruct (fallback_retries_once_with_base string nat Scenario.env
              Scenario.linux "/pkg" Scenario.path_join
              (Scenario.downloadArtifact []) Scenario.extractZip
              Scenario.fs_chmod "10.1.5" 0%nat _ _ _ Hne eq_refl)
    as (r2 & w2 & tr2 & Htry2 & Hattempted & Hresult).
  vm_compute in Htry2. injection Htry2 as <- <- <-.
  destruct Hresult as [Hresult _].
  split; [now rewrite Hresult | exact Hattempted].
Defined.

Lemma baseline_failure_is_terminal_witness :
  baseVersion "10.1.0" = "10.1.0" /\
  result_of (run_attempt Scenario.linux [] "10.1.0" 0%nat)
  = Throw "HTTP 404: v10.1.0" /\
  attemptedVersions (events_of (run_attempt Scenario.linux [] "10.1.0" 0%nat))
  = ["10.1.0"].
Proof.
  split; [reflexivity|].
  destruct (baseline_failure_is_terminal string nat Scenario.env
              Scenario.linux "/pkg" Scenario.path_join
              (Scenario.downloadArtifact []) Scenario.extractZip
              Scenario.fs_chmod "10.1.0" 0%nat _ _ _ eq_refl eq_refl)
    as (Hresult & Hattempted & _).
  split; [now rewrite Hresult | exact Hattempted].
Defined.

Lemma feed_failure_falls_back_to_table_witness :
  Scenario.fetch false feedUrl 0%nat = (Throw "ENOTFOUND", 1%nat) /\
  result_of (run_getChromiumVersion false None (Some "26.0.0") 0%nat)
  = Return (Own "116.0.5845.62").
Proof.
  split; [reflexivity|].
  destruct (feed_failure_falls_back_to_table string nat string
              (Scenario.fetch false) (Scenario.json None)
              Scenario.compareVersions Scenario.fullVersions
              (Some "26.0.0") 0%nat
              (or_introl (ex_intro _ _ (ex_intro _ _ eq_refl))))
    as (w' & tr & Hrun & _).
  now rewrite Hrun.
Defined.

Lemma unsupported_platform_is_an_error_witness :
  ("freebsd" ∉ ["darwin"; "linux"; "win32"]) /\
  getBinaryPath (mkProcess "freebsd" "x64") "/dist" "App"
  = Throw (mkError "Unsupported platform: freebsd") /\
  ("linux" ∈ ["darwin"; "linux"; "win32"]) /\
  exists p, getBinaryPath (mkProcess "linux" "x64") "/dist" "App" = Return p.
Proof.
  assert ("freebsd" ∉ ["darwin"; "linux"; "win32"]) as Hout.
  { intros Hin. apply includes_supported in Hin. discriminate Hin. }
  assert ("linux" ∈ ["darwin"; "linux"; "win32"]) as Hin.
  { apply includes_supported. reflexivity. }
  split; [exact Hout|]. split.
  - exact (proj1 (proj1 (unsupported_platform_is_an_error
                           (mkProcess "freebsd" "x64") "/dist" "App") Hout)).
  - split; [exact Hin|].
    exact (proj2 (unsupported_platform_is_an_error
                    (mkProcess "linux" "x64") "/dist" "App") Hin).
Defined.




Lemma chmod_only_after_extract_off_win32_witness :
  (exists j zipPath dir,
      (j < 6)%nat /\
      events_of (run_tryBlock Scenario.linux ["10.1.0"] "10.1.0" 0%nat) !! j
      = Some (Extract zipPath dir (Return tt))) /\
  no_chmod (events_of (run_tryBlock Scenario.windows ["10.1.0"] "10.1.0" 0%nat)).
Proof.
  split.
  - destruct (proj1 (chmod_only_after_extract_off_win32 string nat Scenario.env
                       Scenario.linux "/pkg" Scenario.path_join
                       (Scenario.downloadArtifact ["10.1.0"])
                       Scenario.extractZip Scenario.fs_chmod "10.1.0" 0%nat)
                6%nat _ _ _ eq_refl)
      as (_ & _ & _ & _ & j & zipPath & dir & Hj & Hextract & _).
    exists j, zipPath, dir. split; [exact Hj | exact Hextract].
  - exact (proj1 (proj2 (chmod_only_after_extract_off_win32 string nat
                           Scenario.env Scenario.windows "/pkg"
                           Scenario.path_join
                           (Scenario.downloadArtifact ["10.1.0"])
                           Scenario.extractZip Scenario.fs_chmod
                           "10.1.0" 0%nat)) eq_refl).
Defined.


(** ** Capabilities and launch options at work *)

Example discovery_values :
  getElectronCapabilities Scenario.capability = Return [Scenario.capability] /\
  getElectronCapabilities (JObj []) = Return [] /\
  getElectronCapabilities (JObj [("browserName", JStr "chrome")])
  = Throw TypeError /\
  getElectronCapabilities JUndefined = Throw TypeError /\
  getElectronCapabilities Scenario.multiremote
  = Return [JObj [("browserName", JStr "Electron")];
            JObj [("browserName", JStr "electron");
                  ("browserVersion", JStr "26.0.0")]].
Proof. repeat split. Qed.

Example launch_option_values :
  exists m,
    getChromeOptions Scenario.linux Scenario.options Scenario.capability
    = Return m /\
    m !! "binary" = Some (JStr "/app/dist/linux-unpacked/My App") /\
    m !! "windowTypes" = Some (JArr [JStr "app"; JStr "webview"]) /\
    m !! "args"
    = Some (JArr [JStr "foo"; JStr "bar=baz"; JStr "--headless"]) /\
    m !! "extensions" = None.
Proof. eexists. split; [reflexivity|]. repeat split. Qed.

Example parseVersion_values :
  parseVersion (fun _ => ["26.0.0"; "1.2.3"]) (Some "electron@26.0.0") = Some "26.0.0" /\
  parseVersion (fun _ => ["26.0.0"]) (Some "") = None /\
  parseVersion (fun _ => ["26.0.0"]) None = None /\
  parseVersion (fun _ => []) (Some "latest") = None.
Proof. repeat split. Qed.

Example chromedriver_option_values :
  getChromedriverOptions Scenario.capability = Return (JObj []) /\
  getChromedriverOptions
    (JObj [("wdio:chromedriverOptions", JObj [("port", JNum 9515)])])
  = Return (JObj [("port", JNum 9515)]).
Proof. repeat split. Qed.

(** ** The further theorems at concrete inputs *)

Lemma baseVersion_of_segments_witness :
  free_of "." "10" = true /\
  free_of "." "1" = true /\
  baseVersion "10.1.5-beta.2" = "10.1.0" /\
  baseVersion "10.1" = "10.1.0" /\
  baseVersion "10" = "10.undefined.0".
Proof.
  split; [reflexivity|]. split; [reflexivity|].
  exact (baseVersion_of_segments "10" "1" "5-beta.2" eq_refl eq_refl).
Defined.

Lemma returns_only_after_provisioning_witness :
  result_of (run_attempt Scenario.linux ["10.1.0"] "10.1.5" 0%nat) = Return tt /\
  exists conf zipPath,
    conf_version conf = "10.1.0" /\
    Download conf (Return zipPath)
      ∈ events_of (run_attempt Scenario.linux ["10.1.0"] "10.1.5" 0%nat) /\
    Extract zipPath (Scenario.path_join ["/pkg"; ".."; "bin"]) (Return tt)
      ∈ events_of (run_attempt Scenario.linux ["10.1.0"] "10.1.5" 0%nat).
Proof.
  split; [reflexivity|].
  destruct (returns_only_after_provisioning string nat Scenario.env
              Scenario.linux "/pkg" Scenario.path_join
              (Scenario.downloadArtifact ["10.1.0"]) Scenario.extractZip
              Scenario.fs_chmod "10.1.5" 0%nat eq_refl)
    as (v & conf & zipPath & Hlast & Hv & Hdownload & Hextract & _).
  vm_compute in Hlast. injection Hlast as <-.
  exists conf, zipPath. split; [exact Hv|]. split; [exact Hdownload | exact Hextract].
Defined.

Lemma invalid_feed_version_falls_back_to_table_witness :
  (2 <= length Scenario.feedNightly)%nat /\
  Exists (fun r => Scenario.invalid (version r)) Scenario.feedNightly /\
  result_of (run_getChromiumVersion true (Some Scenario.feedNightly)
                                    (Some "26.0.0") 0%nat)
  = Return (Own "116.0.5845.62").
Proof.
  assert (2 <= length Scenario.feedNightly)%nat as Hlen by (cbn; lia).
  assert (Exists (fun r => Scenario.invalid (version r)) Scenario.feedNightly)
    as Hex by (right; left; reflexivity).
  split; [exact Hlen|]. split; [exact Hex|].
  rewrite (invalid_feed_version_falls_back_to_table string nat string
             (Scenario.fetch true) (Scenario.json (Some Scenario.feedNightly))
             Scenario.compareVersions Scenario.fullVersions
             Scenario.invalid (Some "26.0.0") Scenario.feedNightly
             0%nat "<body>" 1%nat 1%nat).
  - reflexivity.
  - intros a b Hinvalid. unfold Scenario.compareVersions, Scenario.invalid in *.
    destruct Hinvalid as [-> | ->].
    + eexists. reflexivity.
    + destruct (Scenario.numbers (Js.split "." a)); eexists; reflexivity.
  - exact Hlen.
  - exact Hex.
  - reflexivity.
  - reflexivity.
Defined.

Lemma last_record_of_a_version_wins_witness :
  consistent_on string Scenario.compareVersions
                (map version Scenario.feedTwice) /\
  result_of (run_getChromiumVersion true (Some Scenario.feedTwice)
                                    (Some "26.0.0") 0%nat)
  = Return (Own "116.0.5845.62").
Proof.
  assert (consistent_on string Scenario.compareVersions
                        (map version Scenario.feedTwice)) as Hcmp.
  { exists (fun a b => match Scenario.compareVersions a b with
                       | Return c => c
                       | Throw _ => 0%Z
                       end).
    change (map version Scenario.feedTwice)
      with ["26.0.0"; "25.0.0"; "26.0.0"].
    repeat split.
    all: intros.
    all: repeat match goal with
                | H : _ ∈ _ :: _ |- _ => apply elem_of_cons in H as [->|H]
                | H : _ ∈ [] |- _ => now apply elem_of_nil in H
                end.
    all: try reflexivity.
    all: match goal with
         | H : _ |- _ => vm_compute in H; discriminate H
         end. }
  split; [exact Hcmp|].
  cbv beta.
  rewrite (last_record_of_a_version_wins string nat string
             (Scenario.fetch true) (Scenario.json (Some Scenario.feedTwice))
             Scenario.compareVersions Scenario.fullVersions
             (Some "26.0.0") Scenario.feedTwice 0%nat "<body>" 1%nat 1%nat
             Hcmp eq_refl eq_refl).
  reflexivity.
Defined.

Lemma getMacExecutableName_single_suffix_witness :
  Js.endsWith "My App Helper" " Helper" = true /\
  getMacExecutableName "My App Helper" = "My App".
Proof.
  split; [reflexivity|].
  exact (getMacExecutableName_single_suffix "My App Helper" eq_refl eq_refl).
Defined.

Lemma getMacExecutableName_removes_leftmost_witness :
  Js.endsWith "A Helper B Helper" " Helper" = true /\
  exists pre post,
    "A Helper B Helper" = pre ++ " Helper" ++ post /\
    getMacExecutableName "A Helper B Helper" = pre ++ post.
Proof.
  split; [reflexivity|].
  destruct (getMacExecutableName_removes_leftmost "A Helper B Helper" eq_refl)
    as (pre & post & Hname & Hexe & _).
  exists pre, post. split; [exact Hname | exact Hexe].
Defined.

Lemma discovered_capabilities_are_electron_witness :
  Forall (fun cap =>
            exists s, getProp cap "browserName" = Return (JStr s) /\
                      toLowerCase s = "electron")
         [JObj [("browserName", JStr "Electron")];
          JObj [("browserName", JStr "electron");
                ("browserVersion", JStr "26.0.0")]].
Proof.
  exact (discovered_capabilities_are_electron Scenario.multiremote _ eq_refl).
Defined.

Lemma discovered_capabilities_come_from_the_input_witness :
  (length [JObj [("browserName", JStr "Electron")];
           JObj [("browserName", JStr "electron");
                 ("browserVersion", JStr "26.0.0")]]
   <= Nat.max 1 (length (objectValues Scenario.multiremote)))%nat.
Proof.
  exact (proj2 (discovered_capabilities_come_from_the_input
                  Scenario.multiremote _ eq_refl)).
Defined.

Lemma plain_capability_of_another_browser_throws_witness :
  getElectronCapabilities
    (JObj [("browserName", JStr "chrome"); ("browserVersion", JStr "116")])
  = Throw TypeError.
Proof.
  apply (plain_capability_of_another_browser_throws _ "chrome");
    [reflexivity | discriminate | reflexivity].
Defined.

Lemma standard_and_w3c_shapes_witness :
  getElectronCapabilities
    (JObj [("browserName", JStr "ELECTRON"); ("alwaysMatch", JObj [])])
  = Return [JObj [("browserName", JStr "ELECTRON"); ("alwaysMatch", JObj [])]] /\
  getElectronCapabilities
    (JObj [("alwaysMatch", JObj [("browserName", JStr "electron")]);
           ("firstMatch", JArr [JObj []])])
  = Return [JObj [("browserName", JStr "electron")]].
Proof.
  split.
  - exact (proj1 (standard_and_w3c_shapes
                    [("browserName", JStr "ELECTRON"); ("alwaysMatch", JObj [])]
                    "ELECTRON" eq_refl) eq_refl).
  - exact (proj2 (standard_and_w3c_shapes
                    [("alwaysMatch", JObj [("browserName", JStr "electron")]);
                     ("firstMatch", JArr [JObj []])]
                    "electron" eq_refl)
                 _ eq_refl eq_refl eq_refl).
Defined.

Lemma multiremote_selects_electron_instances_witness :
  getElectronCapabilities Scenario.multiremote
  = Return [JObj [("browserName", JStr "Electron")];
            JObj [("browserName", JStr "electron");
                  ("browserVersion", JStr "26.0.0")]].
Proof.
  apply (multiremote_selects_electron_instances
           [("main", JObj [("capabilities",
                            JObj [("browserName", JStr "Electron")])]);
            ("web", JObj [("capabilities",
                           JObj [("browserName", JStr "chrome")])]);
            ("aux", JObj [("capabilities",
                           JObj [("browserName", JStr "electron");
                                 ("browserVersion", JStr "26.0.0")])])]
           [JObj [("browserName", JStr "Electron")];
            JObj [("browserName", JStr "chrome")];
            JObj [("browserName", JStr "electron");
                  ("browserVersion", JStr "26.0.0")]]);
    [reflexivity | reflexivity |].
  repeat constructor; unfold plainInstance; do 3 eexists;
    repeat split; reflexivity.
Defined.

Lemma launch_args_are_existing_then_app_witness :
  exists m,
    getChromeOptions Scenario.linux Scenario.options Scenario.capability
    = Return m /\
    m !! "args" = Some (JArr [JStr "foo"; JStr "bar=baz"; JStr "--headless"]).
Proof.
  destruct (getChromeOptions Scenario.linux Scenario.options Scenario.capability)
    as [m|e] eqn:Hrun; [|discriminate Hrun].
  exists m. split; [reflexivity|].
  exact (proj1 (launch_args_are_existing_then_app _ _ _ _ Hrun)
               _ [JStr "foo"; JStr "bar=baz"] eq_refl eq_refl).
Defined.

Lemma existing_chrome_options_win_witness :
  exists m,
    getChromeOptions Scenario.linux Scenario.options
      (JObj [("goog:chromeOptions",
              JObj [("binary", JStr "/opt/electron");
                    ("windowTypes", JArr [JStr "app"])])])
    = Return m /\
    m !! "binary" = Some (JStr "/opt/electron") /\
    m !! "windowTypes" = Some (JArr [JStr "app"]).
Proof.
  destruct (getChromeOptions Scenario.linux Scenario.options
              (JObj [("goog:chromeOptions",
                      JObj [("binary", JStr "/opt/electron");
                            ("windowTypes", JArr [JStr "app"])])]))
    as [m|e] eqn:Hrun; [|discriminate Hrun].
  exists m. split; [reflexivity|].
  destruct (existing_chrome_options_win _ _ _ _ _ Hrun eq_refl) as [Hkeep _].
  split; apply Hkeep; first [discriminate | reflexivity].
Defined.

Lemma launch_option_defaults_witness :
  exists m,
    getChromeOptions Scenario.linux Scenario.options Scenario.capability
    = Return m /\
    m !! "windowTypes" = Some (JArr [JStr "app"; JStr "webview"]) /\
    exists name electronPath,
      appName Scenario.options = Some name /\
      getBinaryPath Scenario.linux "/app/dist" name = Return electronPath /\
      m !! "binary" = Some (JStr electronPath).
Proof.
  destruct (getChromeOptions Scenario.linux Scenario.options Scenario.capability)
    as [m|e] eqn:Hrun; [|discriminate Hrun].
  exists m. split; [reflexivity|].
  destruct (launch_option_defaults _ _ _ _ _ Hrun eq_refl) as [Hbinary Hwindow].
  split; [exact (Hwindow eq_refl)|].
  exact (proj2 (Hbinary eq_refl) (or_introl eq_refl)).
Defined.

Lemma platform_error_despite_own_binary_witness :
  getChromeOptions (mkProcess "freebsd" "x64") Scenario.options
    (JObj [("goog:chromeOptions", JObj [("binary", JStr "/opt/electron")])])
  = Throw (ThrownError (mkError "Unsupported platform: freebsd")).
Proof.
  apply (proj1 (platform_error_despite_own_binary
                  (mkProcess "freebsd" "x64") Scenario.options
                  (JObj [("goog:chromeOptions",
                          JObj [("binary", JStr "/opt/electron")])])
                  _ eq_refl)).
  - left. reflexivity.
  - intros Hin. apply includes_supported in Hin. discriminate Hin.
Defined.

Lemma missing_appName_is_a_TypeError_witness :
  getChromeOptions Scenario.linux (mkOptions (Some "/app/dist") None None None)
                   Scenario.capability
  = Throw TypeError.
Proof.
  apply (missing_appName_is_a_TypeError Scenario.linux
           (mkOptions (Some "/app/dist") None None None) Scenario.capability
           _ eq_refl).
  - left. reflexivity.
  - reflexivity.
  - apply includes_supported. reflexivity.
Defined.
